(** * whealthy: the simulation and tax engine

    A shallow embedding of [src/lib/types.ts], [src/lib/tax.ts] and
    [src/lib/simulation.ts], and the properties of the engine proved on it.

    Numbers.  The engine computes on JavaScript numbers.  They are taken
    here as exact rationals ([Q]): every operation the engine uses
    (addition, multiplication, division by a non-zero divisor, comparison,
    [Math.max], [Math.min], [Math.abs], [Math.floor], [Math.pow] with an
    integer exponent) is the exact one, and rounding, infinities and NaN
    are outside that model.  Equality of numbers is [Qeq] ([==]).  Fields
    that the schema declares [int()] are integers ([Z]); loop counters and
    array lengths are natural numbers.

    Where a property turns on rounding, the function is given a second
    time over binary64 numbers ([Binary64], on the kernel's primitive
    floats, whose operations are those of IEEE 754 that JavaScript uses),
    and the statements over [Q] are kept to what rounding preserves: the
    expressions the engine itself evaluates, comparisons, [Math.max] and
    [Math.min], and the shape of lists. *)

From Stdlib Require Import QArith Qminmax Qabs Qround Qpower Lqa Lia ZArith.
From Stdlib Require Import String Sorted.
From Stdlib Require PrimFloat.
From stdpp Require Import base list.

Local Open Scope Q_scope.

(** ** Comparison helpers for the JavaScript operators on numbers *)

(** [a <= b] *)
Definition leq (a b : Q) : bool := Qle_bool a b.
(** [a < b] *)
Definition ltq (a b : Q) : bool := negb (Qle_bool b a).
(** [a >= b] *)
Definition geq (a b : Q) : bool := Qle_bool b a.
(** [a > b] *)
Definition gtq (a b : Q) : bool := negb (Qle_bool a b).

(** ** [types.ts]: the parameter model and the result records *)

Module Types.

(** [{ public, private, cash }]: the shape of [assetAlloc], [assetReturn]
    and [assetVol]. *)
Record Allocation : Type := mkAllocation {
  public : Q;
  private : Q;
  cash : Q
}.

Record CashEvent : Type := mkCashEvent {
  id : string;
  year : Z;
  amount : Q;
  label : option string
}.

Record PrivateCommitments : Type := mkPrivateCommitments {
  enabled : bool;
  totalCommitment : Q;
  callYears : Z;
  distLagYears : Z;
  distYears : Z;
  distMultiple : Q
}.

Inductive SpendingRule : Type := SpendFixed | SpendPctWealth | SpendGuardrails.
Inductive PhilanthropyMode : Type := PhilFixed | PhilPctWealth.
Inductive TaxJurisdiction : Type := Custom | Germany | US | GermanyUS.
Inductive DividendSource : Type := SrcGermany | SrcUS | SrcOther.

Record Guardrails : Type := mkGuardrails {
  targetPctWealth : Q;
  minChange : Q;
  maxChange : Q
}.

Record HoldingCompanyStructure : Type := mkHolding {
  publicDividendSource : DividendSource;
  privateDividendSource : DividendSource;
  usOwnershipPct : Q;
  germanOwnershipPct : Q;
  isVermoegensverwaltend : bool;
  germanTradeTaxRate : Q;
  usCorporateTaxRate : Q
}.

(** [Params], without the fields only the user interface reads
    ([currency], [calculationMode], [taxResidences],
    [taxResidenceWeights], [doubleTaxRelief]). *)
Record Params : Type := mkParams {
  startWealth : Q;
  liquidShare : Q;
  currentAge : Z;
  deathAge : Z;
  spendingRule : SpendingRule;
  annualExpenseNow : Q;
  expenseInflation : Q;
  spendPctWealth : Q;
  guardrails : Guardrails;
  philanthropyMode : PhilanthropyMode;
  philanthropyFixedNow : Q;
  philanthropyPercent : Q;
  desiredTerminalWealth : Q;
  lifetimeSpendingTotal : Q;
  realMode : bool;
  taxJurisdiction : TaxJurisdiction;
  taxInterest : Q;
  taxDividends : Q;
  taxRealizedGains : Q;
  holdingCompanyStructure : HoldingCompanyStructure;
  assetAlloc : Allocation;
  assetReturn : Allocation;
  assetVol : Allocation;
  publicDivYield : Q;
  publicRealizationRate : Q;
  privateRealizationRate : Q;
  privCommit : PrivateCommitments;
  runMonteCarlo : bool;
  numPaths : Z;
  oneOffs : list CashEvent
}.

(** [{ ...params, startWealth: w }] *)
Definition withStartWealth (p : Params) (w : Q) : Params :=
  mkParams w (liquidShare p) (currentAge p) (deathAge p) (spendingRule p)
    (annualExpenseNow p) (expenseInflation p) (spendPctWealth p)
    (guardrails p) (philanthropyMode p) (philanthropyFixedNow p)
    (philanthropyPercent p) (desiredTerminalWealth p)
    (lifetimeSpendingTotal p) (realMode p) (taxJurisdiction p)
    (taxInterest p) (taxDividends p) (taxRealizedGains p)
    (holdingCompanyStructure p) (assetAlloc p) (assetReturn p) (assetVol p)
    (publicDivYield p) (publicRealizationRate p) (privateRealizationRate p)
    (privCommit p) (runMonteCarlo p) (numPaths p) (oneOffs p).

(** [{ ...params, assetReturn: r }] *)
Definition withAssetReturn (p : Params) (r : Allocation) : Params :=
  mkParams (startWealth p) (liquidShare p) (currentAge p) (deathAge p)
    (spendingRule p) (annualExpenseNow p) (expenseInflation p)
    (spendPctWealth p) (guardrails p) (philanthropyMode p)
    (philanthropyFixedNow p) (philanthropyPercent p)
    (desiredTerminalWealth p) (lifetimeSpendingTotal p) (realMode p)
    (taxJurisdiction p) (taxInterest p) (taxDividends p)
    (taxRealizedGains p) (holdingCompanyStructure p) (assetAlloc p) r
    (assetVol p) (publicDivYield p) (publicRealizationRate p)
    (privateRealizationRate p) (privCommit p) (runMonteCarlo p)
    (numPaths p) (oneOffs p).

(** [{ ...params, assetAlloc: a }] *)
Definition withAssetAlloc (p : Params) (a : Allocation) : Params :=
  mkParams (startWealth p) (liquidShare p) (currentAge p) (deathAge p)
    (spendingRule p) (annualExpenseNow p) (expenseInflation p)
    (spendPctWealth p) (guardrails p) (philanthropyMode p)
    (philanthropyFixedNow p) (philanthropyPercent p)
    (desiredTerminalWealth p) (lifetimeSpendingTotal p) (realMode p)
    (taxJurisdiction p) (taxInterest p) (taxDividends p)
    (taxRealizedGains p) (holdingCompanyStructure p) a (assetReturn p)
    (assetVol p) (publicDivYield p) (publicRealizationRate p)
    (privateRealizationRate p) (privCommit p) (runMonteCarlo p)
    (numPaths p) (oneOffs p).

Record SimulationRow : Type := mkRow {
  row_year : Z;
  age : Z;
  wealth : Q;
  liquidWealth : Q;
  expense : Q;
  philanthropy : Q;
  inflows : Q;
  outflows : Q;
  taxes : Q;
  netReturn : Q;
  liquidityYears : Q;
  dividendIncome : Q;
  interestIncome : Q;
  publicRealizedGains : Q;
  publicUnrealizedGains : Q;
  privateRealizedGains : Q;
  privateUnrealizedGains : Q;
  grossReturnPct : Q;
  netReturnPct : Q
}.

Record DeterministicResult : Type := mkDeterministicResult {
  rows : list SimulationRow;
  brokeYear : Z
}.

Record MonteCarloBands : Type := mkBands {
  band5 : list Q;
  band25 : list Q;
  band50 : list Q;
  band75 : list Q;
  band95 : list Q
}.

Record MonteCarloResult : Type := mkMonteCarloResult {
  paths : list (list Q);
  bands : MonteCarloBands;
  ruinProbability : Q
}.

Record ReverseCalculationResult : Type := mkReverseResult {
  requiredStartingWealth : Q;
  calculatedTerminalWealth : Q;
  totalSpending : Q;
  totalPhilanthropy : Q;
  totalTaxes : Q;
  totalReturns : Q;
  reverse_rows : list SimulationRow
}.

End Types.

Import Types.

(** ** [tax.ts]: the tax engine *)

Module Tax.

Definition GERMAN_CORPORATE_TAX_RATE : Q := 0.15.
Definition GERMAN_SOLIDARITY_SURCHARGE : Q := 0.055.
Definition GERMAN_DIVIDEND_EXEMPTION_RATE : Q := 0.95.
Definition GERMAN_MIN_OWNERSHIP_FOR_EXEMPTION : Q := 0.10.
Definition GERMAN_MIN_OWNERSHIP_FOR_TRADE_TAX_EXEMPTION : Q := 0.15.

Definition US_CORPORATE_TAX_RATE : Q := 0.21.
Definition US_DIVIDEND_WITHHOLDING_STANDARD : Q := 0.30.
Definition US_DIVIDEND_WITHHOLDING_TREATY_10PCT : Q := 0.05.
Definition US_DIVIDEND_WITHHOLDING_TREATY_80PCT : Q := 0.
Definition US_MIN_OWNERSHIP_FOR_5PCT : Q := 0.10.
Definition US_MIN_OWNERSHIP_FOR_0PCT : Q := 0.80.

Definition calculateGermanCorporateTaxRate
    (tradeTaxRate : Q) (isVermoegensverwaltend : bool) : Q :=
  let corporateTax := GERMAN_CORPORATE_TAX_RATE in
  let solidaritySurcharge :=
    GERMAN_CORPORATE_TAX_RATE * GERMAN_SOLIDARITY_SURCHARGE in
  let tradeTax := if isVermoegensverwaltend then 0 else tradeTaxRate in
  corporateTax + solidaritySurcharge + tradeTax.

Definition calculateUSDividendWithholdingTax (ownershipPct : Q) : Q :=
  if geq ownershipPct US_MIN_OWNERSHIP_FOR_0PCT then
    US_DIVIDEND_WITHHOLDING_TREATY_80PCT
  else if geq ownershipPct US_MIN_OWNERSHIP_FOR_5PCT then
    US_DIVIDEND_WITHHOLDING_TREATY_10PCT
  else US_DIVIDEND_WITHHOLDING_STANDARD.

(** The local [tradeTax] of [calculateGermanDividendTax] (the lines after
    the 95% exemption has been applied, reached when the ownership is at
    least [GERMAN_MIN_OWNERSHIP_FOR_EXEMPTION]). *)
Definition dividendTradeTax
    (dividendAmount ownershipPct tradeTaxRate : Q)
    (isVermoegensverwaltend : bool) : Q :=
  let qualifiesForTradeTaxExemption :=
    geq ownershipPct GERMAN_MIN_OWNERSHIP_FOR_TRADE_TAX_EXEMPTION in
  let taxableDividend :=
    dividendAmount * (1 - GERMAN_DIVIDEND_EXEMPTION_RATE) in
  if negb isVermoegensverwaltend then
    if qualifiesForTradeTaxExemption
    then taxableDividend * tradeTaxRate
    else dividendAmount * tradeTaxRate
  else 0.

Definition calculateGermanDividendTax
    (dividendAmount ownershipPct tradeTaxRate : Q)
    (isVermoegensverwaltend : bool) : Q :=
  let qualifiesForExemption :=
    geq ownershipPct GERMAN_MIN_OWNERSHIP_FOR_EXEMPTION in
  if negb qualifiesForExemption then
    let effectiveRate :=
      calculateGermanCorporateTaxRate tradeTaxRate isVermoegensverwaltend in
    dividendAmount * effectiveRate
  else
    let taxableDividend :=
      dividendAmount * (1 - GERMAN_DIVIDEND_EXEMPTION_RATE) in
    let corporateTax := taxableDividend * GERMAN_CORPORATE_TAX_RATE in
    let solidaritySurcharge := corporateTax * GERMAN_SOLIDARITY_SURCHARGE in
    let tradeTax :=
      dividendTradeTax dividendAmount ownershipPct tradeTaxRate
        isVermoegensverwaltend in
    corporateTax + solidaritySurcharge + tradeTax.

Definition computeCustomTaxes
    (params : Params) (baseForReturn : Q) (allocation : Allocation)
    (publicDivYield publicRealized cashReturn privateRealized : Q) : Q :=
  let publicBase := baseForReturn * public allocation in
  let cashBase := baseForReturn * cash allocation in
  let privateBase := baseForReturn * private allocation in
  let taxOnDiv := publicBase * publicDivYield * taxDividends params in
  let taxOnPublicRealized :=
    publicBase * publicRealized * taxRealizedGains params in
  let taxOnCash := cashBase * cashReturn * taxInterest params in
  let taxOnPrivate :=
    privateBase * privateRealized * taxRealizedGains params in
  Qmax 0 (taxOnDiv + taxOnPublicRealized + taxOnCash + taxOnPrivate).

(** The value of [totalTax] before the final [Math.max(0, totalTax)] of
    [computeHoldingCompanyTaxes], for the jurisdictions other than
    [custom]. *)
Definition holdingTotalTax
    (params : Params) (baseForReturn : Q) (allocation : Allocation)
    (publicDivYield publicRealized cashReturn privateRealized : Q) : Q :=
  let publicBase := baseForReturn * public allocation in
  let cashBase := baseForReturn * cash allocation in
  let privateBase := baseForReturn * private allocation in
  let holding := holdingCompanyStructure params in
  let totalTax := 0 in
  let publicDividendIncome := publicBase * publicDivYield in
  let interestIncome := cashBase * cashReturn in
  let publicRealizedGains := publicBase * publicRealized in
  let privateRealizedGains := privateBase * privateRealized in
  match taxJurisdiction params with
  | Germany | GermanyUS =>
      let publicDividendTax :=
        calculateGermanDividendTax publicDividendIncome
          (germanOwnershipPct holding) (germanTradeTaxRate holding)
          (isVermoegensverwaltend holding) in
      let effectiveGermanRate :=
        calculateGermanCorporateTaxRate (germanTradeTaxRate holding)
          (isVermoegensverwaltend holding) in
      let interestTax := interestIncome * effectiveGermanRate in
      let publicGainsTax := publicRealizedGains * effectiveGermanRate in
      let privateGainsTax := privateRealizedGains * effectiveGermanRate in
      let totalTax :=
        totalTax +
        (publicDividendTax + interestTax + publicGainsTax + privateGainsTax) in
      match taxJurisdiction params, publicDividendSource holding with
      | GermanyUS, SrcUS =>
          let usWithholding :=
            publicDividendIncome *
            calculateUSDividendWithholdingTax (usOwnershipPct holding) in
          totalTax + usWithholding
      | _, _ => totalTax
      end
  | US =>
      let dividendIncome := publicDividendIncome in
      let allIncome :=
        dividendIncome + interestIncome + publicRealizedGains +
        privateRealizedGains in
      allIncome * usCorporateTaxRate holding
  | Custom => totalTax
  end.

Definition computeHoldingCompanyTaxes
    (params : Params) (baseForReturn : Q) (allocation : Allocation)
    (publicDivYield publicRealized cashReturn privateRealized : Q) : Q :=
  match taxJurisdiction params with
  | Custom =>
      computeCustomTaxes params baseForReturn allocation publicDivYield
        publicRealized cashReturn privateRealized
  | _ =>
      Qmax 0
        (holdingTotalTax params baseForReturn allocation publicDivYield
           publicRealized cashReturn privateRealized)
  end.

Definition computeLiquidCustomTaxes
    (params : Params) (baseForReturn : Q) (allocation : Allocation)
    (publicDivYield publicRealized cashReturn : Q) : Q :=
  let publicBase := baseForReturn * public allocation in
  let cashBase := baseForReturn * cash allocation in
  let taxOnDiv := publicBase * publicDivYield * taxDividends params in
  let taxOnPublicRealized :=
    publicBase * publicRealized * taxRealizedGains params in
  let taxOnCash := cashBase * cashReturn * taxInterest params in
  Qmax 0 (taxOnDiv + taxOnPublicRealized + taxOnCash).

(** [totalTax] before the final [Math.max(0, totalTax)] of
    [computeLiquidHoldingCompanyTaxes]. *)
Definition liquidTotalTax
    (params : Params) (baseForReturn : Q) (allocation : Allocation)
    (publicDivYield publicRealized cashReturn : Q) : Q :=
  let publicBase := baseForReturn * public allocation in
  let cashBase := baseForReturn * cash allocation in
  let holding := holdingCompanyStructure params in
  let totalTax := 0 in
  let publicDividendIncome := publicBase * publicDivYield in
  let interestIncome := cashBase * cashReturn in
  let publicRealizedGains := publicBase * publicRealized in
  match taxJurisdiction params with
  | Germany | GermanyUS =>
      let publicDividendTax :=
        calculateGermanDividendTax publicDividendIncome
          (germanOwnershipPct holding) (germanTradeTaxRate holding)
          (isVermoegensverwaltend holding) in
      let effectiveGermanRate :=
        calculateGermanCorporateTaxRate (germanTradeTaxRate holding)
          (isVermoegensverwaltend holding) in
      let interestTax := interestIncome * effectiveGermanRate in
      let publicGainsTax := publicRealizedGains * effectiveGermanRate in
      let totalTax :=
        totalTax + (publicDividendTax + interestTax + publicGainsTax) in
      match taxJurisdiction params, publicDividendSource holding with
      | GermanyUS, SrcUS =>
          let usWithholding :=
            publicDividendIncome *
            calculateUSDividendWithholdingTax (usOwnershipPct holding) in
          totalTax + usWithholding
      | _, _ => totalTax
      end
  | US =>
      let allIncome :=
        publicDividendIncome + interestIncome + publicRealizedGains in
      allIncome * usCorporateTaxRate holding
  | Custom => totalTax
  end.

Definition computeLiquidHoldingCompanyTaxes
    (params : Params) (baseForReturn : Q) (allocation : Allocation)
    (publicDivYield publicRealized cashReturn : Q) : Q :=
  match taxJurisdiction params with
  | Custom =>
      computeLiquidCustomTaxes params baseForReturn allocation
        publicDivYield publicRealized cashReturn
  | _ =>
      Qmax 0
        (liquidTotalTax params baseForReturn allocation publicDivYield
           publicRealized cashReturn)
  end.

End Tax.

Import Tax.

(** ** [simulation.ts]: schedules, cashflows, the simulators and the solver *)

Module Simulation.

Definition MAX_MONTE_CARLO_PATHS : Z := 2000.

Definition clamp (value min max : Q) : Q := Qmax min (Qmin max value).

(** Over exact rationals; [Binary64.normalizeAllocation] below is the
    same function on binary64 numbers. *)
Definition normalizeAllocation (alloc : Allocation) : Allocation :=
  let total := public alloc + private alloc + cash alloc in
  if Qeq_bool total 0 then alloc
  else
    mkAllocation (public alloc / total) (private alloc / total)
      (cash alloc / total).

Definition weightedAverage (weights values : Allocation) : Q :=
  public weights * public values + private weights * private values +
  cash weights * cash values.

Record PrivateSchedule : Type := mkPrivateSchedule {
  calls : list Q;
  distributions : list Q
}.

(** [arr[i] = v] for an integer [i].  Inside the array the element is
    replaced; a negative [i] leaves the elements as they are.  The writes
    of [generatePrivateSchedules] never reach past the end of the array
    (see [fillRange_length]), where JavaScript would extend it. *)
Definition arraySet (arr : list Q) (i : Z) (v : Q) : list Q :=
  if (0 <=? i)%Z then <[Z.to_nat i := v]> arr else arr.

(** [arr[i]] for an integer [i]: [None] stands for [undefined]. *)
Definition arrayGet {A : Type} (arr : list A) (i : Z) : option A :=
  if (0 <=? i)%Z then arr !! Z.to_nat i else None.

(** [n] turns of [for (; ; y++) arr[y] = v], starting at [y]. *)
Fixpoint fillLoop (arr : list Q) (y : Z) (n : nat) (v : Q) : list Q :=
  match n with
  | O => arr
  | S k => fillLoop (arraySet arr y v) (y + 1) k v
  end.

(** [for (let y = lo; y < hi; y++) arr[y] = v] *)
Definition fillRange (arr : list Q) (lo hi : Z) (v : Q) : list Q :=
  fillLoop arr lo (Z.to_nat (hi - lo)) v.

(** [years] is the horizon length: [Array(years + 1)] needs a length that
    is a non-negative integer, and both callers pass
    [Math.max(1, deathAge - currentAge)]. *)
Definition generatePrivateSchedules
    (privCommit : PrivateCommitments) (years : nat) : PrivateSchedule :=
  let calls := replicate (S years) (0 : Q) in
  let distributions := replicate (S years) (0 : Q) in
  if negb (enabled privCommit) || leq (totalCommitment privCommit) 0 then
    mkPrivateSchedule calls distributions
  else
    let effectiveCallYears :=
      Z.min (callYears privCommit) (Z.of_nat years + 1) in
    let callPerYear :=
      totalCommitment privCommit / inject_Z (Z.max effectiveCallYears 1) in
    let calls := fillRange calls 0 effectiveCallYears callPerYear in
    let totalCalled := callPerYear * inject_Z effectiveCallYears in
    let totalReturn := totalCalled * distMultiple privCommit in
    let distYears :=
      Z.max 1
        (Z.min (distYears privCommit)
           (Z.of_nat years + 1 - distLagYears privCommit)) in
    let distPerYear := totalReturn / inject_Z distYears in
    let start := distLagYears privCommit in
    let finalYear := Z.min (start + distYears) (Z.of_nat years + 1) in
    let distributions := fillRange distributions start finalYear distPerYear in
    mkPrivateSchedule calls distributions.

Definition computeSpending
    (params : Params) (wealth : Q) (yearIndex : nat) (lastYearSpend : Q) : Q :=
  match spendingRule params with
  | SpendPctWealth => spendPctWealth params * wealth
  | SpendGuardrails =>
      let target := targetPctWealth (guardrails params) * wealth in
      let inflation :=
        if realMode params then 0 else expenseInflation params in
      let minSpend :=
        lastYearSpend * (1 + inflation + minChange (guardrails params)) in
      let maxSpend :=
        lastYearSpend * (1 + inflation + maxChange (guardrails params)) in
      clamp target (Qmin minSpend maxSpend) (Qmax minSpend maxSpend)
  | SpendFixed =>
      let inflation :=
        if realMode params then 0 else expenseInflation params in
      annualExpenseNow params * (1 + inflation) ^ Z.of_nat yearIndex
  end.

Definition computePhilanthropy
    (params : Params) (wealth : Q) (yearIndex : nat) : Q :=
  match philanthropyMode params with
  | PhilPctWealth => philanthropyPercent params * wealth
  | PhilFixed =>
      let inflation :=
        if realMode params then 0 else expenseInflation params in
      philanthropyFixedNow params * (1 + inflation) ^ Z.of_nat yearIndex
  end.

Record OneOffTotals : Type := mkOneOffTotals {
  oneOffInflows : Q;
  oneOffOutflows : Q
}.

Definition sumOneOffs (params : Params) (yearIndex : nat) : OneOffTotals :=
  let events :=
    List.filter (fun event => (year event =? Z.of_nat yearIndex)%Z)
      (oneOffs params) in
  let inflows :=
    fold_left (fun acc curr => acc + amount curr)
      (List.filter (fun event => gtq (amount event) 0) events) 0 in
  let outflows :=
    fold_left (fun acc curr => acc + Qabs (amount curr))
      (List.filter (fun event => ltq (amount event) 0) events) 0 in
  mkOneOffTotals inflows outflows.

Definition computeTaxes := computeHoldingCompanyTaxes.
Definition computeLiquidTaxes := computeLiquidHoldingCompanyTaxes.

(** The variables the year loop of [simulateDeterministic] carries from
    one turn to the next. *)
Record YearState : Type := mkYearState {
  stWealth : Q;
  stLiquidWealth : Q;
  stLastYearSpend : Q
}.

(** One turn of the year loop of [simulateDeterministic]: the row it
    pushes and the carried variables after it. *)
Definition simulateYear
    (params : Params) (allocation : Allocation)
    (privateCalls privateDistributions : list Q)
    (yearIndex : nat) (st : YearState) : SimulationRow * YearState :=
  let wealth := stWealth st in
  let liquidWealth := stLiquidWealth st in
  let lastYearSpend := stLastYearSpend st in
  let age := (currentAge params + Z.of_nat yearIndex)%Z in
  let expense := computeSpending params wealth yearIndex lastYearSpend in
  let philanthropy := computePhilanthropy params wealth yearIndex in
  let oneOffs := sumOneOffs params yearIndex in
  let privateCall := default 0 (privateCalls !! yearIndex) in
  let privateDistribution := default 0 (privateDistributions !! yearIndex) in
  let totalOutflowsPreTax :=
    expense + philanthropy + oneOffOutflows oneOffs + privateCall in
  let totalInflowsPreTax := oneOffInflows oneOffs + privateDistribution in
  let baseForReturn :=
    Qmax 0 (wealth - 0.5 * totalOutflowsPreTax + 0.5 * totalInflowsPreTax) in
  let publicReturn := public (assetReturn params) in
  let publicDivYield := publicDivYield params in
  let publicPriceReturn := Qmax 0 (publicReturn - publicDivYield) in
  let publicRealized := publicRealizationRate params * publicPriceReturn in
  let cashReturn := cash (assetReturn params) in
  let privateReturn := private (assetReturn params) in
  let privateRealized :=
    privateRealizationRate params * Qmax 0 privateReturn in
  let grossReturn :=
    public allocation * publicReturn + private allocation * privateReturn +
    cash allocation * cashReturn in
  let taxes :=
    computeTaxes params baseForReturn allocation publicDivYield
      publicRealized cashReturn privateRealized in
  let liquidTaxes :=
    computeLiquidTaxes params baseForReturn allocation publicDivYield
      publicRealized cashReturn in
  let netReturn := baseForReturn * grossReturn - taxes in
  let wealth := wealth + totalInflowsPreTax + netReturn - totalOutflowsPreTax in
  let publicBase := baseForReturn * public allocation in
  let cashBase := baseForReturn * cash allocation in
  let privateBase := baseForReturn * private allocation in
  let dividendIncome := publicBase * publicDivYield in
  let interestIncome := cashBase * cashReturn in
  let publicUnrealizedGains :=
    publicBase * Qmax 0 (publicPriceReturn - publicRealized) in
  let publicRealizedGains := publicBase * publicRealized in
  let privateUnrealizedGains :=
    privateBase * Qmax 0 (privateReturn - privateRealized) in
  let privateRealizedGains := privateBase * privateRealized in
  let liquidBefore := liquidWealth in
  let liquidReturn :=
    baseForReturn *
    (public allocation * publicReturn + cash allocation * cashReturn) in
  let liquidAfter :=
    liquidBefore + totalInflowsPreTax - privateCall - expense - philanthropy -
    oneOffOutflows oneOffs + liquidReturn - liquidTaxes in
  let liquidWealth := Qmax 0 liquidAfter in
  let liquidityYears := liquidWealth / Qmax 1 (expense + philanthropy) in
  let grossReturnPct := if gtq baseForReturn 0 then grossReturn else 0 in
  let netReturnPct :=
    if gtq baseForReturn 0 then netReturn / baseForReturn else 0 in
  (mkRow (Z.of_nat yearIndex) age wealth liquidWealth expense philanthropy
     totalInflowsPreTax totalOutflowsPreTax taxes netReturn liquidityYears
     dividendIncome interestIncome publicRealizedGains publicUnrealizedGains
     privateRealizedGains privateUnrealizedGains grossReturnPct netReturnPct,
   mkYearState wealth liquidWealth expense).

(** The year loop: [remaining] turns are left, the next one is for
    [yearIndex]; the loop breaks after pushing a row with [wealth <= 0]. *)
Fixpoint yearLoop
    (params : Params) (allocation : Allocation)
    (privateCalls privateDistributions : list Q)
    (remaining yearIndex : nat) (st : YearState) : list SimulationRow :=
  match remaining with
  | O => []
  | S k =>
      let '(row, st') :=
        simulateYear params allocation privateCalls privateDistributions
          yearIndex st in
      if leq (wealth row) 0 then [row]
      else
        row :: yearLoop params allocation privateCalls privateDistributions
                 k (S yearIndex) st'
  end.

(** [arr.findIndex(f)], counting from [i]. *)
Fixpoint findIndexFrom {A : Type} (f : A -> bool) (l : list A) (i : Z) : Z :=
  match l with
  | [] => (-1)%Z
  | x :: t => if f x then i else findIndexFrom f t (i + 1)
  end.

Definition findIndex {A : Type} (f : A -> bool) (l : list A) : Z :=
  findIndexFrom f l 0.

(** [Math.max(1, params.deathAge - params.currentAge)] *)
Definition horizon (params : Params) : nat :=
  Z.to_nat (Z.max 1 (deathAge params - currentAge params)).

(** The merge of [input] over [DEFAULT_PARAMS] is [input] itself: a
    [Params] record has every field, so no default is left visible. *)
Definition simulateDeterministic (input : Params) : DeterministicResult :=
  let params := input in
  let years := horizon params in
  let allocation := normalizeAllocation (assetAlloc params) in
  let schedule := generatePrivateSchedules (privCommit params) years in
  let privateCalls := calls schedule in
  let privateDistributions := distributions schedule in
  let wealth := startWealth params in
  let liquidWealth := startWealth params * clamp (liquidShare params) 0 1 in
  let lastYearSpend := annualExpenseNow params in
  let rows :=
    yearLoop params allocation privateCalls privateDistributions
      (S years) 0 (mkYearState wealth liquidWealth lastYearSpend) in
  let brokeYear := findIndex (fun row => leq (Types.wealth row) 0) rows in
  mkDeterministicResult rows brokeYear.

(** *** Monte Carlo *)

(** Insertion of [x] behind the elements that are not greater. *)
Fixpoint insertSorted (x : Q) (l : list Q) : list Q :=
  match l with
  | [] => [x]
  | y :: t => if ltq x y then x :: l else y :: insertSorted x t
  end.

(** [[...values].sort((a, b) => a - b)]: a stable ascending sort. *)
Definition sortNumbers (values : list Q) : list Q :=
  fold_left (fun acc x => insertSorted x acc) values [].

Definition computePercentiles (values quantiles : list Q) : list Q :=
  map
    (fun q =>
       let sorted := sortNumbers values in
       let len := Z.of_nat (length sorted) in
       let index := Qfloor (q / 100 * (inject_Z len - 1)) in
       match arrayGet sorted index with
       | Some v => v
       | None => default 0 (arrayGet sorted (len - 1))
       end)
    quantiles.

(** [while (trajectory.length < years + 1) trajectory.push(last ?? 0)],
    for the [n] turns the loop takes. *)
Fixpoint padLoop (n : nat) (trajectory : list Q) : list Q :=
  match n with
  | O => trajectory
  | S k => padLoop k (trajectory ++ [default 0 (last trajectory)])
  end.

Definition padTrajectory (trajectory : list Q) (years : nat) : list Q :=
  padLoop (S years - length trajectory) trajectory.

(** [trajectory.findIndex((wealth) => wealth <= 0) !== -1] *)
Definition touchesZero (trajectory : list Q) : bool :=
  negb (findIndex (fun wealth => leq wealth 0) trajectory =? -1)%Z.

(** The loop that counts the ruined paths. *)
Definition countRuined (paths : list (list Q)) : Z :=
  fold_left
    (fun ruinCount trajectory =>
       if touchesZero trajectory then (ruinCount + 1)%Z else ruinCount)
    paths 0%Z.

Section MonteCarlo.

(** [boxMuller()] draws from [Math.random] and goes through [Math.sqrt],
    [Math.log] and [Math.cos]; its results are taken as given: [boxMuller k]
    is what the [k]-th call (counting from 0) returns. *)
Variable boxMuller : nat -> Q.

(** The path loop: [remaining] turns are left, the next one is for
    [pathIdx]; each path makes three calls to [boxMuller]. *)
Fixpoint pathLoop
    (params : Params) (allocation : Allocation) (years : nat)
    (remaining pathIdx : nat) : list (list Q) :=
  match remaining with
  | O => []
  | S k =>
      let randomized :=
        withAssetReturn params
          (mkAllocation
             (public (assetReturn params) +
              public (assetVol params) * boxMuller (3 * pathIdx)%nat)
             (private (assetReturn params) +
              private (assetVol params) * boxMuller (3 * pathIdx + 1)%nat)
             (cash (assetReturn params) +
              cash (assetVol params) * boxMuller (3 * pathIdx + 2)%nat)) in
      let result :=
        simulateDeterministic (withAssetAlloc randomized allocation) in
      let trajectory := padTrajectory (map wealth (rows result)) years in
      trajectory :: pathLoop params allocation years k (S pathIdx)
  end.

(** The [k]-th percentile of the destructured
    [computePercentiles(values, [5, 25, 50, 75, 95])] for one year,
    floored at 0. *)
Definition bandValue (paths : list (list Q)) (k yearIdx : nat) : Q :=
  let values := map (fun trajectory => default 0 (trajectory !! yearIdx)) paths in
  Qmax 0 (nth k (computePercentiles values [5; 25; 50; 75; 95]) 0).

Definition simulateMonteCarlo (params : Params) : MonteCarloResult :=
  let allocation := normalizeAllocation (assetAlloc params) in
  let years := horizon params in
  let numPaths := Z.min (numPaths params) MAX_MONTE_CARLO_PATHS in
  let paths := pathLoop params allocation years (Z.to_nat numPaths) 0 in
  let yearIdxs := seq 0 (S years) in
  let bands :=
    mkBands (map (bandValue paths 0) yearIdxs) (map (bandValue paths 1) yearIdxs)
      (map (bandValue paths 2) yearIdxs) (map (bandValue paths 3) yearIdxs)
      (map (bandValue paths 4) yearIdxs) in
  let ruinCount := countRuined paths in
  mkMonteCarloResult paths bands
    (if (numPaths =? 0)%Z then 0 else inject_Z ruinCount / inject_Z numPaths).

End MonteCarlo.

(** *** Reverse solver *)

(** The variables of the search loop of [calculateReverse]; [runs] counts
    the calls of [simulateDeterministic] the loop has made. *)
Record SearchState : Type := mkSearchState {
  low : Q;
  high : Q;
  bestGuess : Q;
  bestResult : option DeterministicResult;
  runs : nat
}.

(** [result.rows[result.rows.length - 1]?.wealth ?? 0] *)
Definition terminalWealth (result : DeterministicResult) : Q :=
  match last (rows result) with
  | Some row => wealth row
  | None => 0
  end.

(** One turn of the search loop; the boolean tells whether it ended in
    [break]. *)
Definition searchStep
    (params : Params) (targetTerminalWealth tolerance : Q)
    (st : SearchState) : SearchState * bool :=
  let guess := (low st + high st) / 2 in
  let testParams := withStartWealth params guess in
  let result := simulateDeterministic testParams in
  let finalWealth := terminalWealth result in
  let diff := finalWealth - targetTerminalWealth in
  if ltq (Qabs diff) tolerance then
    (mkSearchState (low st) (high st) guess (Some result) (S (runs st)), true)
  else if gtq diff 0 then
    (mkSearchState (low st) guess guess (Some result) (S (runs st)), false)
  else
    (mkSearchState guess (high st) guess (Some result) (S (runs st)), false).

Fixpoint searchLoop
    (params : Params) (targetTerminalWealth tolerance : Q)
    (remaining : nat) (st : SearchState) : SearchState :=
  match remaining with
  | O => st
  | S k =>
      let '(st', stop) :=
        searchStep params targetTerminalWealth tolerance st in
      if stop then st'
      else searchLoop params targetTerminalWealth tolerance k st'
  end.

(** The bounds [(low, high)] the search starts from. *)
Definition initialBounds (params : Params) : Q * Q :=
  let targetTerminalWealth := desiredTerminalWealth params in
  let low := 0 in
  let high := 1000000000 in
  if gtq (lifetimeSpendingTotal params) 0 then
    let roughEstimate := lifetimeSpendingTotal params + targetTerminalWealth in
    let high := Qmax high (roughEstimate * 2) in
    let low := Qmax 0 (roughEstimate * 0.5) in
    (low, high)
  else (low, high).

Definition tolerance : Q := 1000.
Definition maxIterations : nat := 50.

(** The state of the search when its loop is left. *)
Definition reverseSearch (params : Params) : SearchState :=
  let '(low, high) := initialBounds params in
  searchLoop params (desiredTerminalWealth params) tolerance maxIterations
    (mkSearchState low high 0 None 0).

Definition calculateReverse (params : Params) : ReverseCalculationResult :=
  let st := reverseSearch params in
  let bestGuess := bestGuess st in
  let bestResult :=
    match bestResult st with
    | Some result => result
    | None => simulateDeterministic (withStartWealth params bestGuess)
    end in
  let finalRow := last (rows bestResult) in
  let totalSpending :=
    fold_left (fun sum row => sum + expense row) (rows bestResult) 0 in
  let totalPhilanthropy :=
    fold_left (fun sum row => sum + philanthropy row) (rows bestResult) 0 in
  let totalTaxes :=
    fold_left (fun sum row => sum + taxes row) (rows bestResult) 0 in
  let totalReturns :=
    fold_left (fun sum row => sum + netReturn row) (rows bestResult) 0 in
  mkReverseResult bestGuess
    (match finalRow with Some row => wealth row | None => 0 end)
    totalSpending totalPhilanthropy totalTaxes totalReturns (rows bestResult).

End Simulation.

Import Simulation.

(** ** [simulation.ts] on binary64 numbers

    [normalizeAllocation] once more, on the numbers the engine really
    computes with.  A decimal literal stands for the nearest binary64
    value, as it does in the source. *)

Module Binary64.

Import PrimFloat.

Set Warnings "-inexact-float".

Record Allocation : Type := mkAllocation {
  public : float;
  private : float;
  cash : float
}.

Definition normalizeAllocation (alloc : Allocation) : Allocation :=
  let total := (public alloc + private alloc + cash alloc)%float in
  if (total =? 0)%float then alloc
  else
    mkAllocation (public alloc / total)%float (private alloc / total)%float
      (cash alloc / total)%float.

(** [alloc.public + alloc.private + alloc.cash] *)
Definition entriesSum (alloc : Allocation) : float :=
  (public alloc + private alloc + cash alloc)%float.

(** All three entries are at least 0. *)
Definition nonNegative (alloc : Allocation) : bool :=
  (0 <=? public alloc)%float && (0 <=? private alloc)%float &&
  (0 <=? cash alloc)%float.

(** Two allocations of the kind the interface sends: 10/20/30 and
    60/30/10. *)
Definition tenths : Allocation := mkAllocation 0.1 0.2 0.3.
Definition sixThreeOne : Allocation := mkAllocation 0.6 0.3 0.1.

Definition one : float := 1.
(** The binary64 numbers next to 1: [1 - 2^-53] and [1 + 2^-52]. *)
Definition belowOne : float := 0x1.fffffffffffffp-1.
Definition aboveOne : float := 0x1.0000000000001p+0.

Set Warnings "inexact-float".

End Binary64.

(** ** A few runs of the engine *)

Definition allCash : Allocation := mkAllocation 0 0 1.

Definition defaultHolding : HoldingCompanyStructure :=
  mkHolding SrcOther SrcOther 0.1 0.1 true 0.14 0.21.

Definition noCommitments : PrivateCommitments :=
  mkPrivateCommitments false 0 1 0 1 0.

(** A scenario over two years with fixed spending. *)
Definition sampleParams : Params :=
  mkParams 1000000 0.6 60 62 SpendFixed 50000 0 0.04
    (mkGuardrails 0.04 (-0.05) 0.05) PhilFixed 0 0 0 0 true Custom
    0.3 0.25 0.25 defaultHolding (mkAllocation 0.5 0.3 0.2)
    (mkAllocation 0.06 0.08 0.03) (mkAllocation 0.15 0.2 0.01)
    0.02 0.25 0.2 noCommitments false 100 [].


(** ** Definitions the statements are written with *)

(** The four per-bucket terms of the custom jurisdiction, added up. *)
Definition customTaxTerms
    (params : Params) (baseForReturn : Q) (allocation : Allocation)
    (publicDivYield publicRealized cashReturn privateRealized : Q) : Q :=
  let publicBase := baseForReturn * public allocation in
  let cashBase := baseForReturn * cash allocation in
  let privateBase := baseForReturn * private allocation in
  publicBase * publicDivYield * taxDividends params +
  publicBase * publicRealized * taxRealizedGains params +
  cashBase * cashReturn * taxInterest params +
  privateBase * privateRealized * taxRealizedGains params.

(** The quantities of the commitment schedule, as the specification
    names them. *)
Definition effectiveCallYears (pc : PrivateCommitments) (years : nat) : Z :=
  Z.min (callYears pc) (Z.of_nat years + 1).

Definition callPerYear (pc : PrivateCommitments) (years : nat) : Q :=
  totalCommitment pc / inject_Z (Z.max (effectiveCallYears pc years) 1).

Definition calledCapital (pc : PrivateCommitments) (years : nat) : Q :=
  callPerYear pc years * inject_Z (effectiveCallYears pc years).

Definition distributionYears (pc : PrivateCommitments) (years : nat) : Z :=
  Z.max 1 (Z.min (distYears pc) (Z.of_nat years + 1 - distLagYears pc)).

Definition distPerYear (pc : PrivateCommitments) (years : nat) : Q :=
  calledCapital pc years * distMultiple pc /
  inject_Z (distributionYears pc years).

(** Row [i] is the first row whose wealth is not positive. *)
Definition firstNonPositiveAt (l : list SimulationRow) (i : nat) : Prop :=
  (exists row, l !! i = Some row /\ wealth row <= 0) /\
  forall (j : nat) row, (j < i)%nat -> l !! j = Some row -> 0 < wealth row.

Definition positiveWealth (row : SimulationRow) : Prop := 0 < wealth row.

(** The trajectory contains at least one value that is not positive. *)
Definition hasNonPositive (trajectory : list Q) : bool :=
  existsb (fun w => leq w 0) trajectory.

(** The number of trajectories that contain a value that is not positive. *)
Definition ruinedPaths (l : list (list Q)) : nat :=
  length (List.filter hasNonPositive l).

(** Each value is at least the one before it, [w0] being before the
    first. *)
Fixpoint nonDecreasingFrom (w0 : Q) (l : list Q) : Prop :=
  match l with
  | [] => True
  | w :: t => w0 <= w /\ nonDecreasingFrom w t
  end.

(** The wealth of the rows never falls, starting from [startWealth]. *)
Definition wealthNonDecreasing (p : Params) : Prop :=
  nonDecreasingFrom (startWealth p)
    (map wealth (rows (simulateDeterministic p))).

(** The configured spending is zero under the rule in force (the
    guardrails rule starts from [annualExpenseNow]). *)
Definition zeroSpending (p : Params) : Prop :=
  match spendingRule p with
  | SpendPctWealth => spendPctWealth p == 0
  | SpendFixed | SpendGuardrails => annualExpenseNow p == 0
  end.

Definition zeroPhilanthropy (p : Params) : Prop :=
  match philanthropyMode p with
  | PhilPctWealth => philanthropyPercent p == 0
  | PhilFixed => philanthropyFixedNow p == 0
  end.

Definition positiveReturns (p : Params) : Prop :=
  0 < public (assetReturn p) /\ 0 < private (assetReturn p) /\
  0 < cash (assetReturn p).

(** No year of the run is taxed beyond its gross return: the
    [netReturn] of every row is at least 0. *)
Definition netReturnNonNegative (p : Params) : Prop :=
  Forall (fun row => 0 <= netReturn row) (rows (simulateDeterministic p)).

(** The state [calculateReverse] enters its loop with. *)
Definition initialSearchState (params : Params) : SearchState :=
  mkSearchState (fst (initialBounds params)) (snd (initialBounds params))
    0 None 0.

(** [iterationTrace turn n s s' stopped]: [n] turns lead from the state
    [s] to [s']; every turn before the last one said to go on, and
    [stopped] is what the last one said. *)
Inductive iterationTrace (turn : SearchState -> SearchState * bool)
    : nat -> SearchState -> SearchState -> bool -> Prop :=
| trace_last (s : SearchState) :
    iterationTrace turn 1 s (fst (turn s)) (snd (turn s))
| trace_next (n : nat) (s s' : SearchState) (stopped : bool) :
    snd (turn s) = false ->
    iterationTrace turn n (fst (turn s)) s' stopped ->
    iterationTrace turn (S n) s s' stopped.

(** [searchTrace params n s s' stopped]: [n] turns of the bisection lead
    from [s] to [s']; every turn before the last one found the terminal
    wealth outside the tolerance, and [stopped] tells whether the last
    one found it inside. *)
Definition searchTrace (params : Params)
    : nat -> SearchState -> SearchState -> bool -> Prop :=
  iterationTrace
    (searchStep params (desiredTerminalWealth params) tolerance).

(** A scenario without spending whose private commitment is called. *)
Definition calledParams : Params :=
  mkParams 1000000 0.6 60 62 SpendFixed 0 0 0.04
    (mkGuardrails 0.04 (-0.05) 0.05) PhilFixed 0 0 0 0 true Custom
    0.3 0.25 0.25 defaultHolding (mkAllocation 0.5 0.3 0.2)
    (mkAllocation 0.06 0.08 0.03) (mkAllocation 0.15 0.2 0.01)
    0.02 0.25 0.2 (mkPrivateCommitments true 2000000 4 2 4 2) false 100 [].

(** A scenario without spending whose dividend yield (50%) is above the
    public return (1%), dividends being taxed at 100%. *)
Definition highYieldParams : Params :=
  mkParams 1000000 0.6 60 62 SpendFixed 0 0 0.04
    (mkGuardrails 0.04 (-0.05) 0.05) PhilFixed 0 0 0 0 true Custom
    0.3 1 0.25 defaultHolding (mkAllocation 1 0 0)
    (mkAllocation 0.01 0.01 0.01) (mkAllocation 0.15 0.2 0.01)
    0.5 0.25 0.2 noCommitments false 100 [].

(** A scenario without spending, giving or commitments. *)
Definition idleParams : Params :=
  mkParams 1000000 0.6 60 62 SpendFixed 0 0 0.04
    (mkGuardrails 0.04 (-0.05) 0.05) PhilFixed 0 0 0 0 true Custom
    0.3 0.25 0.25 defaultHolding (mkAllocation 0.5 0.3 0.2)
    (mkAllocation 0.06 0.08 0.03) (mkAllocation 0.15 0.2 0.01)
    0.02 0.25 0.2 noCommitments false 100 [].

(** ** [store/useParamsStore.ts]: the actions on the one-off events *)

Module Store.

(** [{ ...state.params, oneOffs: events }] *)
Definition withOneOffs (p : Params) (events : list CashEvent) : Params :=
  mkParams (startWealth p) (liquidShare p) (currentAge p) (deathAge p)
    (spendingRule p) (annualExpenseNow p) (expenseInflation p)
    (spendPctWealth p) (guardrails p) (philanthropyMode p)
    (philanthropyFixedNow p) (philanthropyPercent p)
    (desiredTerminalWealth p) (lifetimeSpendingTotal p) (realMode p)
    (taxJurisdiction p) (taxInterest p) (taxDividends p)
    (taxRealizedGains p) (holdingCompanyStructure p) (assetAlloc p)
    (assetReturn p) (assetVol p) (publicDivYield p)
    (publicRealizationRate p) (privateRealizationRate p) (privCommit p)
    (runMonteCarlo p) (numPaths p) events.

(** The argument [sign: 1 | -1] of [addOneOff]. *)
Inductive Sign : Type := Plus | Minus.

Definition signValue (sign : Sign) : Q :=
  match sign with Plus => 1 | Minus => -1 end.

(** [addOneOff]; [newId] is what [makeId()] returns. *)
Definition addOneOff (newId : string) (sign : Sign) (params : Params) : Params :=
  withOneOffs params
    (oneOffs params ++
     [mkCashEvent newId 0 (signValue sign * 10000)
        (Some (match sign with Plus => "Inflow" | Minus => "Outflow" end)%string)]).

Definition removeOneOff (target : string) (params : Params) : Params :=
  withOneOffs params
    (List.filter (fun event => negb (String.eqb (id event) target))
       (oneOffs params)).

End Store.

(** ** [app/page.tsx]: what the page shows in reverse mode *)

Module Page.

(** The [deterministic] the page builds from the reverse result. *)
Definition reverseDeterministic
    (reverse : ReverseCalculationResult) : DeterministicResult :=
  mkDeterministicResult (reverse_rows reverse)
    (findIndex (fun row => leq (wealth row) 0) (reverse_rows reverse)).

End Page.

Import Store Page.


(** ** [taxProfiles.ts]: the tax setup derived from the residences *)

Module TaxProfiles.

Inductive TaxResidenceCountry : Type := ResUS | ResUK | ResGermany | ResFrance.

Definition countryEqb (a b : TaxResidenceCountry) : bool :=
  match a, b with
  | ResUS, ResUS | ResUK, ResUK | ResGermany, ResGermany
  | ResFrance, ResFrance => true
  | _, _ => false
  end.

Record CustomRates : Type := mkCustomRates {
  ratesInterest : Q;
  ratesDividends : Q;
  ratesRealizedGains : Q
}.

(** [Partial<Params["holdingCompanyStructure"]>] *)
Record HoldingPatch : Type := mkHoldingPatch {
  patchPublicDividendSource : option DividendSource;
  patchPrivateDividendSource : option DividendSource;
  patchUsOwnershipPct : option Q;
  patchGermanOwnershipPct : option Q;
  patchIsVermoegensverwaltend : option bool;
  patchGermanTradeTaxRate : option Q;
  patchUsCorporateTaxRate : option Q
}.

Definition emptyPatch : HoldingPatch :=
  mkHoldingPatch None None None None None None None.

(** One field of [{ ...acc, ...patch }]. *)
Definition override {A : Type} (old new : option A) : option A :=
  match new with Some v => Some v | None => old end.

(** [{ ...acc, ...patch }] *)
Definition mergePatch (acc patch : HoldingPatch) : HoldingPatch :=
  mkHoldingPatch
    (override (patchPublicDividendSource acc) (patchPublicDividendSource patch))
    (override (patchPrivateDividendSource acc)
       (patchPrivateDividendSource patch))
    (override (patchUsOwnershipPct acc) (patchUsOwnershipPct patch))
    (override (patchGermanOwnershipPct acc) (patchGermanOwnershipPct patch))
    (override (patchIsVermoegensverwaltend acc)
       (patchIsVermoegensverwaltend patch))
    (override (patchGermanTradeTaxRate acc) (patchGermanTradeTaxRate patch))
    (override (patchUsCorporateTaxRate acc) (patchUsCorporateTaxRate patch)).

(** [TaxResidenceCountryDefinition], without the texts it shows
    ([label], [assumptions]). *)
Record TaxResidenceCountryDefinition : Type := mkCountry {
  countryId : TaxResidenceCountry;
  customRates : option CustomRates;
  holdingPatch : option HoldingPatch
}.

Definition usDefinition : TaxResidenceCountryDefinition :=
  mkCountry ResUS (Some (mkCustomRates 0.21 0.21 0.21))
    (Some (mkHoldingPatch (Some SrcUS) (Some SrcUS) (Some 0.1) None None
             None (Some 0.21))).

Definition ukDefinition : TaxResidenceCountryDefinition :=
  mkCountry ResUK (Some (mkCustomRates 0.25 0.25 0.25))
    (Some (mkHoldingPatch (Some SrcOther) (Some SrcOther) None None None
             None None)).

Definition germanyDefinition : TaxResidenceCountryDefinition :=
  mkCountry ResGermany (Some (mkCustomRates 0.25 0.25 0.25))
    (Some (mkHoldingPatch (Some SrcGermany) (Some SrcGermany) None
             (Some 0.1) (Some true) (Some 0.14) None)).

Definition franceDefinition : TaxResidenceCountryDefinition :=
  mkCountry ResFrance (Some (mkCustomRates 0.28 0.28 0.28))
    (Some (mkHoldingPatch (Some SrcOther) (Some SrcOther) None None None
             None None)).

Definition TAX_RESIDENCE_COUNTRIES : list TaxResidenceCountryDefinition :=
  [usDefinition; ukDefinition; germanyDefinition; franceDefinition].

(** [TAX_RESIDENCE_COUNTRIES.find(...) ?? TAX_RESIDENCE_COUNTRIES[0]] *)
Definition getTaxResidenceCountry
    (c : TaxResidenceCountry) : TaxResidenceCountryDefinition :=
  default usDefinition
    (List.find (fun country => countryEqb (countryId country) c)
       TAX_RESIDENCE_COUNTRIES).

(** [arr.includes(c)] *)
Definition includes (l : list TaxResidenceCountry) (c : TaxResidenceCountry) : bool :=
  existsb (countryEqb c) l.

(** [Array.from(new Set(residences))]: the first occurrence of each
    country, in the order of the input. *)
Fixpoint uniqueFrom (seen residences : list TaxResidenceCountry)
    : list TaxResidenceCountry :=
  match residences with
  | [] => []
  | c :: t =>
      if includes seen c then uniqueFrom seen t
      else c :: uniqueFrom (seen ++ [c]) t
  end.

Definition uniqueResidences (residences : list TaxResidenceCountry)
    : list TaxResidenceCountry :=
  uniqueFrom [] residences.

(** [arr.reduce((sum, item, index) => f(sum, item, index), acc)], from
    [index] on. *)
Fixpoint reduceIndexed {A : Type} (f : Q -> A -> nat -> Q)
    (l : list A) (index : nat) (acc : Q) : Q :=
  match l with
  | [] => acc
  | x :: t => reduceIndexed f t (S index) (f acc x index)
  end.

Record TaxSetup : Type := mkTaxSetup {
  setupJurisdiction : TaxJurisdiction;
  setupInterest : Q;
  setupDividends : Q;
  setupRealizedGains : Q;
  setupHoldingPatch : HoldingPatch
}.

(** [deriveTaxSetupFromResidences]; [weights] is the optional record of
    optional weights, [doubleTaxRelief] the optional argument with
    default 0.5.  [normalizedWeights] has one entry per selected country,
    so [normalizedWeights[index]] is always defined. *)
Definition deriveTaxSetupFromResidences
    (residences : list TaxResidenceCountry)
    (weights : option (TaxResidenceCountry -> option Q))
    (doubleTaxReliefArg : option Q) : TaxSetup :=
  let doubleTaxRelief := default 0.5 doubleTaxReliefArg in
  let unique := uniqueResidences residences in
  let hasGermany := includes unique ResGermany in
  let hasUS := includes unique ResUS in
  let taxJurisdiction :=
    if hasGermany && hasUS then GermanyUS
    else if hasGermany then Germany
    else if hasUS && (length unique =? 1)%nat then US
    else Custom in
  let selectedDefs := map getTaxResidenceCountry unique in
  let selectedWithRates :=
    omap (fun d =>
            match customRates d with
            | Some r => Some (countryId d, r)
            | None => None
            end) selectedDefs in
  let baseWeights :=
    map (fun d =>
           Qmax 0
             (default 0
                (match weights with
                 | Some w => w (fst d)
                 | None => None
                 end)))
      selectedWithRates in
  let weightSum := fold_left (fun sum w => sum + w) baseWeights 0 in
  let normalizedWeights :=
    if gtq weightSum 0 then map (fun w => w / weightSum) baseWeights
    else
      map (fun _ =>
             1 / Qmax 1 (inject_Z (Z.of_nat (length selectedWithRates))))
        selectedWithRates in
  let weighted (getter : CustomRates -> Q) :=
    match selectedWithRates with
    | [] => 0.25
    | _ =>
        reduceIndexed
          (fun sum def index =>
             sum + getter (snd def) * default 0 (normalizedWeights !! index))
          selectedWithRates 0 0
    end in
  let overlapFactor :=
    Qmax 0
      ((inject_Z (Z.of_nat (length unique)) - 1) /
       Qmax 1 (inject_Z (Z.of_nat (length unique)))) in
  let reliefMultiplier :=
    1 - Qmax 0 (Qmin 1 doubleTaxRelief) * overlapFactor in
  let taxInterest := weighted ratesInterest * reliefMultiplier in
  let taxDividends := weighted ratesDividends * reliefMultiplier in
  let taxRealizedGains := weighted ratesRealizedGains * reliefMultiplier in
  let holdingCompanyStructurePatch :=
    fold_left
      (fun acc def => mergePatch acc (default emptyPatch (holdingPatch def)))
      selectedDefs emptyPatch in
  mkTaxSetup taxJurisdiction taxInterest taxDividends taxRealizedGains
    holdingCompanyStructurePatch.

End TaxProfiles.

Import TaxProfiles.



(** ** More definitions the statements are written with *)

(** [{ ...params, taxJurisdiction: j }] *)
Definition withJurisdiction (p : Params) (j : TaxJurisdiction) : Params :=
  mkParams (startWealth p) (liquidShare p) (currentAge p) (deathAge p)
    (spendingRule p) (annualExpenseNow p) (expenseInflation p)
    (spendPctWealth p) (guardrails p) (philanthropyMode p)
    (philanthropyFixedNow p) (philanthropyPercent p)
    (desiredTerminalWealth p) (lifetimeSpendingTotal p) (realMode p)
    j (taxInterest p) (taxDividends p) (taxRealizedGains p)
    (holdingCompanyStructure p) (assetAlloc p) (assetReturn p) (assetVol p)
    (publicDivYield p) (publicRealizationRate p) (privateRealizationRate p)
    (privCommit p) (runMonteCarlo p) (numPaths p) (oneOffs p).

(** The sum of a list of numbers. *)
Definition sumQ (l : list Q) : Q := fold_right Qplus 0 l.

(** The events of [params.oneOffs] dated [yearIndex]. *)
Definition eventsOfYear (params : Params) (yearIndex : nat) : list CashEvent :=
  List.filter (fun event => (year event =? Z.of_nat yearIndex)%Z)
    (oneOffs params).

(** Each row's wealth is the wealth before it plus the row's inflows and
    net return, less its outflows; [w0] is the wealth before the first. *)
Fixpoint wealthLedger (w0 : Q) (l : list SimulationRow) : Prop :=
  match l with
  | [] => True
  | row :: t =>
      wealth row = w0 + inflows row + netReturn row - outflows row /\
      wealthLedger (wealth row) t
  end.

(** None of the six income components of a row is negative. *)
Definition incomeNonNegative (row : SimulationRow) : Prop :=
  0 <= dividendIncome row /\ 0 <= interestIncome row /\
  0 <= publicRealizedGains row /\ 0 <= publicUnrealizedGains row /\
  0 <= privateRealizedGains row /\ 0 <= privateUnrealizedGains row.

(** What [computePercentiles] returns for one quantile. *)
Definition percentileAt (values : list Q) (q : Q) : Q :=
  nth 0 (computePercentiles values [q]) 0.

(** The five bands are in ascending order at index [i]. *)
Definition bandsOrderedAt (b : MonteCarloBands) (i : nat) : Prop :=
  match band5 b !! i, band25 b !! i, band50 b !! i, band75 b !! i,
        band95 b !! i with
  | Some p5, Some p25, Some p50, Some p75, Some p95 =>
      p5 <= p25 /\ p25 <= p50 /\ p50 <= p75 /\ p75 <= p95
  | _, _, _, _, _ => True
  end.

(** The residence countries are all selected, all the same, or absent. *)
Definition onlyUS (residences : list TaxResidenceCountry) : Prop :=
  residences <> [] /\ Forall (fun c => c = ResUS) residences.

(** A scenario under the guardrails rule. *)
Definition guardrailParams : Params :=
  mkParams 10000000 0.6 60 62 SpendGuardrails 400000 0.02 0.04
    (mkGuardrails 0.04 (-0.05) 0.05) PhilFixed 0 0 0 0 false Custom
    0.3 0.25 0.25 defaultHolding (mkAllocation 0.5 0.3 0.2)
    (mkAllocation 0.06 0.08 0.03) (mkAllocation 0.15 0.2 0.01)
    0.02 0.25 0.2 noCommitments false 100 [].

(** [sampleParams] with the two events of the repository's test. *)
Definition eventParams : Params :=
  withOneOffs sampleParams
    [mkCashEvent "a" 1 100000 None; mkCashEvent "b" 1 (-50000) None].

(** * Properties *)

(** ** Comparisons *)

Lemma leq_true a b : leq a b = true <-> a <= b.
Proof. apply Qle_bool_iff. Qed.

Lemma leq_false a b : leq a b = false <-> b < a.
Proof.
  unfold leq. split; intros H.
  - apply Qnot_le_lt. intros Hle. apply Qle_bool_iff in Hle. congruence.
  - destruct (Qle_bool a b) eqn:E; [|reflexivity].
    apply Qle_bool_iff in E. lra.
Qed.

Lemma geq_true a b : geq a b = true <-> b <= a.
Proof. apply Qle_bool_iff. Qed.

Lemma geq_false a b : geq a b = false <-> a < b.
Proof. apply leq_false. Qed.

Lemma gtq_true a b : gtq a b = true <-> b < a.
Proof.
  unfold gtq. rewrite negb_true_iff. apply leq_false.
Qed.

Lemma gtq_false a b : gtq a b = false <-> a <= b.
Proof.
  unfold gtq. rewrite negb_false_iff. apply leq_true.
Qed.

Lemma ltq_true a b : ltq a b = true <-> a < b.
Proof. apply gtq_true. Qed.

Lemma ltq_false a b : ltq a b = false <-> b <= a.
Proof. apply gtq_false. Qed.

Lemma Qmax_nonneg_l (x : Q) : 0 <= Qmax 0 x.
Proof. apply Q.le_max_l. Qed.

Lemma Qmax_0_of_nonneg (x : Q) : 0 <= x -> Qmax 0 x == x.
Proof. intros H. apply Q.max_r. exact H. Qed.

Lemma Qmax_0_of_nonpos (x : Q) : x <= 0 -> Qmax 0 x == 0.
Proof. intros H. apply Q.max_l. exact H. Qed.


(** ** Tax engine *)

Section TaxEngine.

Variable params : Params.
Variable baseForReturn : Q.
Variable allocation : Allocation.
Variables publicDivYield publicRealized cashReturn privateRealized : Q.

Lemma computeCustomTaxes_floor :
  computeCustomTaxes params baseForReturn allocation publicDivYield
    publicRealized cashReturn privateRealized
  == Qmax 0
       (customTaxTerms params baseForReturn allocation publicDivYield
          publicRealized cashReturn privateRealized).
Proof. reflexivity. Qed.

Lemma computeCustomTaxes_nonneg :
  0 <= computeCustomTaxes params baseForReturn allocation publicDivYield
         publicRealized cashReturn privateRealized.
Proof. apply Qmax_nonneg_l. Qed.

Lemma computeLiquidCustomTaxes_nonneg :
  0 <= computeLiquidCustomTaxes params baseForReturn allocation
         publicDivYield publicRealized cashReturn.
Proof. apply Qmax_nonneg_l. Qed.

(** C1, as the code has it: in the custom jurisdiction the full-portfolio
    entry point returns the sum of the four per-bucket terms floored at 0;
    it is the sum itself when the sum is not negative, and 0 when the sum
    is not positive (as a negative cash return can make it). *)
Theorem custom_tax_is_floored_sum :
  taxJurisdiction params = Custom ->
  let total :=
    computeHoldingCompanyTaxes params baseForReturn allocation
      publicDivYield publicRealized cashReturn privateRealized in
  let terms :=
    customTaxTerms params baseForReturn allocation publicDivYield
      publicRealized cashReturn privateRealized in
  total == Qmax 0 terms /\
  (0 <= terms -> total == terms) /\
  (terms <= 0 -> total == 0).
Proof.
  intros Hj total terms.
  assert (Ht : total == Qmax 0 terms).
  { subst total. unfold computeHoldingCompanyTaxes. rewrite Hj.
    apply computeCustomTaxes_floor. }
  split; [exact Ht|]. split; intros H; rewrite Ht.
  - apply Qmax_0_of_nonneg, H.
  - apply Qmax_0_of_nonpos, H.
Qed.

(** C3: the full-portfolio and the liquid-only entry point return a value
    that is at least 0, in every jurisdiction and at every input. *)
Theorem tax_entry_points_nonneg :
  0 <= computeHoldingCompanyTaxes params baseForReturn allocation
         publicDivYield publicRealized cashReturn privateRealized /\
  0 <= computeLiquidHoldingCompanyTaxes params baseForReturn allocation
         publicDivYield publicRealized cashReturn.
Proof.
  unfold computeHoldingCompanyTaxes, computeLiquidHoldingCompanyTaxes.
  split; destruct (taxJurisdiction params);
    first [apply computeCustomTaxes_nonneg
          | apply computeLiquidCustomTaxes_nonneg
          | apply Qmax_nonneg_l].
Qed.

End TaxEngine.

(** The witness of [custom_tax_is_floored_sum]: the blend of the
    repository's tax test. *)
Lemma custom_tax_is_floored_sum_witness :
  let total :=
    computeHoldingCompanyTaxes sampleParams 1000000 (assetAlloc sampleParams)
      0.02 0.03 0.03 0.05 in
  let terms :=
    customTaxTerms sampleParams 1000000 (assetAlloc sampleParams)
      0.02 0.03 0.03 0.05 in
  total == Qmax 0 terms /\
  (0 <= terms -> total == terms) /\
  (terms <= 0 -> total == 0).
Proof.
  apply (custom_tax_is_floored_sum sampleParams 1000000
           (assetAlloc sampleParams) 0.02 0.03 0.03 0.05).
  reflexivity.
Defined.

(** C1 as stated fails: with all capital in cash, a cash return of -1% and
    30% tax on interest the four terms add up to -3/10, and the entry
    point returns 0. *)
Lemma custom_tax_negative_cash_return :
  computeHoldingCompanyTaxes sampleParams 100 allCash 0 0 (-0.01) 0 == 0 /\
  customTaxTerms sampleParams 100 allCash 0 0 (-0.01) 0 == -0.3 /\
  ~ (computeHoldingCompanyTaxes sampleParams 100 allCash 0 0 (-0.01) 0
     == customTaxTerms sampleParams 100 allCash 0 0 (-0.01) 0).
Proof.
  split; [reflexivity|]. split; [reflexivity|].
  intros H. vm_compute in H. discriminate H.
Qed.

(** C2 as stated fails: a holding that is not asset-managing, owns 15% and
    pays 14% trade tax owes trade tax of 7/10 on a dividend of 100. *)
Lemma dividend_trade_tax_at_15_percent :
  dividendTradeTax 100 0.15 0.14 false == 0.7 /\
  ~ (dividendTradeTax 100 0.15 0.14 false == 0) /\
  calculateGermanDividendTax 100 0.15 0.14 false == 1.49125 /\
  calculateGermanDividendTax 100 0.15 0.14 true == 0.79125.
Proof.
  split; [reflexivity|]. split; [|split; reflexivity].
  intros H. vm_compute in H. discriminate H.
Qed.

(** C2, as the code has it: from 15% ownership on, a holding that is not
    asset-managing owes trade tax on the part of the dividend that the
    95% exemption leaves taxable, [dividendAmount * (1 - 0.95)], at the
    trade tax rate; the trade-tax component of an asset-managing holding
    is 0; and the dividend tax is the corporate tax on the taxable part,
    the solidarity surcharge on that tax, and the trade-tax component. *)
Theorem dividend_trade_tax_on_taxable_portion
    (dividendAmount ownershipPct tradeTaxRate : Q) :
  GERMAN_MIN_OWNERSHIP_FOR_TRADE_TAX_EXEMPTION <= ownershipPct ->
  let taxableDividend :=
    dividendAmount * (1 - GERMAN_DIVIDEND_EXEMPTION_RATE) in
  let corporateTax := taxableDividend * GERMAN_CORPORATE_TAX_RATE in
  let solidaritySurcharge := corporateTax * GERMAN_SOLIDARITY_SURCHARGE in
  dividendTradeTax dividendAmount ownershipPct tradeTaxRate false
    == taxableDividend * tradeTaxRate /\
  dividendTradeTax dividendAmount ownershipPct tradeTaxRate true == 0 /\
  calculateGermanDividendTax dividendAmount ownershipPct tradeTaxRate false
    == corporateTax + solidaritySurcharge + taxableDividend * tradeTaxRate /\
  calculateGermanDividendTax dividendAmount ownershipPct tradeTaxRate true
    == corporateTax + solidaritySurcharge.
Proof.
  intros Hown taxableDividend corporateTax solidaritySurcharge.
  assert (H15 : geq ownershipPct GERMAN_MIN_OWNERSHIP_FOR_TRADE_TAX_EXEMPTION
                = true) by (apply geq_true; exact Hown).
  assert (H10 : geq ownershipPct GERMAN_MIN_OWNERSHIP_FOR_EXEMPTION = true).
  { apply geq_true. unfold GERMAN_MIN_OWNERSHIP_FOR_TRADE_TAX_EXEMPTION,
      GERMAN_MIN_OWNERSHIP_FOR_EXEMPTION in *. lra. }
  split; [|split; [|split]].
  - unfold dividendTradeTax. rewrite H15. reflexivity.
  - reflexivity.
  - unfold calculateGermanDividendTax, dividendTradeTax.
    rewrite H10, H15. reflexivity.
  - unfold calculateGermanDividendTax, dividendTradeTax.
    rewrite H10. cbn [negb]. fold taxableDividend corporateTax.
    fold solidaritySurcharge. ring.
Qed.

Lemma dividend_trade_tax_on_taxable_portion_witness :
  let taxableDividend := 100 * (1 - GERMAN_DIVIDEND_EXEMPTION_RATE) in
  let corporateTax := taxableDividend * GERMAN_CORPORATE_TAX_RATE in
  let solidaritySurcharge := corporateTax * GERMAN_SOLIDARITY_SURCHARGE in
  dividendTradeTax 100 0.2 0.14 false == taxableDividend * 0.14 /\
  dividendTradeTax 100 0.2 0.14 true == 0 /\
  calculateGermanDividendTax 100 0.2 0.14 false
    == corporateTax + solidaritySurcharge + taxableDividend * 0.14 /\
  calculateGermanDividendTax 100 0.2 0.14 true
    == corporateTax + solidaritySurcharge.
Proof.
  apply (dividend_trade_tax_on_taxable_portion 100 0.2 0.14).
  unfold GERMAN_MIN_OWNERSHIP_FOR_TRADE_TAX_EXEMPTION. lra.
Defined.

(** ** Allocation normalizer *)

(** C6 as stated fails on the numbers the engine computes with: the
    entries 0.1, 0.2, 0.3 are non-negative and their total is not 0, yet
    the three quotients add up to the binary64 number just below 1, not
    to 1; for 0.6, 0.3, 0.1 they add up to the one just above 1. *)
Lemma normalizeAllocation_sum_not_one :
  (Binary64.nonNegative Binary64.tenths = true /\
   PrimFloat.eqb (Binary64.entriesSum Binary64.tenths) PrimFloat.zero
   = false /\
   Binary64.entriesSum (Binary64.normalizeAllocation Binary64.tenths)
   = Binary64.belowOne /\
   PrimFloat.eqb
     (Binary64.entriesSum (Binary64.normalizeAllocation Binary64.tenths))
     Binary64.one = false) /\
  (Binary64.nonNegative Binary64.sixThreeOne = true /\
   PrimFloat.eqb (Binary64.entriesSum Binary64.sixThreeOne) PrimFloat.zero
   = false /\
   Binary64.entriesSum (Binary64.normalizeAllocation Binary64.sixThreeOne)
   = Binary64.aboveOne /\
   PrimFloat.eqb
     (Binary64.entriesSum (Binary64.normalizeAllocation Binary64.sixThreeOne))
     Binary64.one = false).
Proof. repeat split; vm_compute; reflexivity. Qed.

(** C6, as the code has it: for a triple of non-negative weights with a
    non-zero total, the normalizer divides each entry by the total, and
    each quotient lies between 0 and 1; with a total of 0 it returns its
    input. *)
Theorem normalizeAllocation_rescales (alloc : Allocation) :
  0 <= public alloc -> 0 <= private alloc -> 0 <= cash alloc ->
  let total := public alloc + private alloc + cash alloc in
  let out := normalizeAllocation alloc in
  (~ total == 0 ->
     public out == public alloc / total /\
     private out == private alloc / total /\
     cash out == cash alloc / total /\
     0 <= public out <= 1 /\ 0 <= private out <= 1 /\ 0 <= cash out <= 1) /\
  (total == 0 -> out = alloc).
Proof.
  intros Hp Hv Hc total out. subst out. unfold normalizeAllocation.
  fold total. split.
  - intros Hne.
    destruct (Qeq_bool total 0) eqn:E.
    { apply Qeq_bool_iff in E. contradiction. }
    assert (Hpos : 0 < total) by (subst total; lra).
    cbn [public private cash].
    repeat split; try reflexivity;
      try (apply Qle_shift_div_l; [exact Hpos|lra]);
      apply Qle_shift_div_r; try exact Hpos; subst total; lra.
  - intros Hz. apply Qeq_bool_iff in Hz. rewrite Hz. reflexivity.
Qed.

Lemma normalizeAllocation_rescales_witness :
  let alloc := mkAllocation 2 1 1 in
  let total := public alloc + private alloc + cash alloc in
  let out := normalizeAllocation alloc in
  (~ total == 0 ->
     public out == public alloc / total /\
     private out == private alloc / total /\
     cash out == cash alloc / total /\
     0 <= public out <= 1 /\ 0 <= private out <= 1 /\ 0 <= cash out <= 1) /\
  (total == 0 -> out = alloc).
Proof.
  apply (normalizeAllocation_rescales (mkAllocation 2 1 1));
    cbn [public private cash]; lra.
Defined.

Lemma normalizeAllocation_nonneg (alloc : Allocation) :
  0 <= public alloc -> 0 <= private alloc -> 0 <= cash alloc ->
  0 <= public (normalizeAllocation alloc) /\
  0 <= private (normalizeAllocation alloc) /\
  0 <= cash (normalizeAllocation alloc).
Proof.
  intros Hp Hv Hc. unfold normalizeAllocation.
  set (total := public alloc + private alloc + cash alloc).
  destruct (Qeq_bool total 0) eqn:E; [tauto|].
  assert (Hinv : 0 <= / total).
  { apply Qinv_le_0_compat. subst total. lra. }
  cbn [public private cash].
  repeat split; apply Qmult_le_0_compat; assumption.
Qed.

(** ** Private commitment scheduler *)

Lemma arraySet_length arr i v : length (arraySet arr i v) = length arr.
Proof.
  unfold arraySet. destruct (0 <=? i)%Z; [apply length_insert|reflexivity].
Qed.

Lemma arraySet_lookup_eq (arr : list Q) (i : nat) v :
  (i < length arr)%nat -> arraySet arr (Z.of_nat i) v !! i = Some v.
Proof.
  intros H. unfold arraySet.
  destruct (0 <=? Z.of_nat i)%Z eqn:E; [|lia].
  rewrite Nat2Z.id. apply list_lookup_insert_eq, H.
Qed.

Lemma arraySet_lookup_ne (arr : list Q) (y : Z) (i : nat) v :
  y <> Z.of_nat i -> arraySet arr y v !! i = arr !! i.
Proof.
  intros H. unfold arraySet.
  destruct (0 <=? y)%Z eqn:E; [|reflexivity].
  apply list_lookup_insert_ne. lia.
Qed.

Lemma fillLoop_length n : forall arr y v,
  length (fillLoop arr y n v) = length arr.
Proof.
  induction n as [|k IH]; intros arr y v; simpl; [reflexivity|].
  rewrite IH. apply arraySet_length.
Qed.

Lemma fillLoop_lookup_outside n : forall (arr : list Q) y v (i : nat),
  (Z.of_nat i < y \/ y + Z.of_nat n <= Z.of_nat i)%Z ->
  fillLoop arr y n v !! i = arr !! i.
Proof.
  induction n as [|k IH]; intros arr y v i H; simpl; [reflexivity|].
  rewrite IH by lia. apply arraySet_lookup_ne. lia.
Qed.

Lemma fillLoop_lookup_inside n : forall (arr : list Q) y v (i : nat),
  (y <= Z.of_nat i < y + Z.of_nat n)%Z -> (i < length arr)%nat ->
  fillLoop arr y n v !! i = Some v.
Proof.
  induction n as [|k IH]; intros arr y v i H Hlen; simpl; [lia|].
  destruct (Z.eq_dec y (Z.of_nat i)) as [->|Hne].
  - rewrite fillLoop_lookup_outside by lia.
    apply arraySet_lookup_eq, Hlen.
  - apply IH; [lia|]. rewrite arraySet_length. exact Hlen.
Qed.

Lemma fillRange_length arr lo hi v :
  length (fillRange arr lo hi v) = length arr.
Proof. apply fillLoop_length. Qed.

(** What [fillRange] leaves in a zero-filled array. *)
Lemma fillRange_zeros_lookup (n : nat) (lo hi : Z) (v : Q) (i : nat) :
  (i < n)%nat ->
  fillRange (replicate n 0) lo hi v !! i
  = Some (if ((lo <=? Z.of_nat i) && (Z.of_nat i <? hi))%Z then v else 0).
Proof.
  intros Hi. unfold fillRange.
  destruct ((lo <=? Z.of_nat i) && (Z.of_nat i <? hi))%Z eqn:E.
  - apply andb_true_iff in E as [E1 E2].
    apply fillLoop_lookup_inside; [lia|].
    rewrite length_replicate. exact Hi.
  - rewrite fillLoop_lookup_outside.
    + apply lookup_replicate_2, Hi.
    + apply andb_false_iff in E as [E|E]; lia.
Qed.

Section Scheduler.

Variable pc : PrivateCommitments.
Variable years : nat.

Lemma generatePrivateSchedules_off :
  enabled pc = false \/ totalCommitment pc <= 0 ->
  generatePrivateSchedules pc years
  = mkPrivateSchedule (replicate (S years) 0) (replicate (S years) 0).
Proof.
  intros H. unfold generatePrivateSchedules.
  assert (E : negb (enabled pc) || leq (totalCommitment pc) 0 = true).
  { apply orb_true_iff. destruct H as [H|H].
    - left. rewrite H. reflexivity.
    - right. apply leq_true, H. }
  rewrite E. reflexivity.
Qed.

Lemma generatePrivateSchedules_on :
  enabled pc = true -> 0 < totalCommitment pc ->
  generatePrivateSchedules pc years
  = mkPrivateSchedule
      (fillRange (replicate (S years) 0) 0 (effectiveCallYears pc years)
         (callPerYear pc years))
      (fillRange (replicate (S years) 0) (distLagYears pc)
         (Z.min (distLagYears pc + distributionYears pc years)
            (Z.of_nat years + 1))
         (distPerYear pc years)).
Proof.
  intros He Ht. unfold generatePrivateSchedules.
  assert (E : negb (enabled pc) || leq (totalCommitment pc) 0 = false).
  { apply orb_false_iff. split.
    - rewrite He. reflexivity.
    - apply leq_false, Ht. }
  rewrite E. reflexivity.
Qed.

Lemma generatePrivateSchedules_lengths :
  length (calls (generatePrivateSchedules pc years)) = S years /\
  length (distributions (generatePrivateSchedules pc years)) = S years.
Proof.
  unfold generatePrivateSchedules.
  destruct (negb (enabled pc) || leq (totalCommitment pc) 0);
    cbn [calls distributions];
    rewrite ?fillRange_length, ?length_replicate; split; reflexivity.
Qed.

Lemma generatePrivateSchedules_lookup (i : nat) :
  enabled pc = true -> 0 < totalCommitment pc -> (i <= years)%nat ->
  calls (generatePrivateSchedules pc years) !! i
  = Some (if (Z.of_nat i <? effectiveCallYears pc years)%Z
          then callPerYear pc years else 0) /\
  distributions (generatePrivateSchedules pc years) !! i
  = Some (if ((distLagYears pc <=? Z.of_nat i) &&
              (Z.of_nat i <? distLagYears pc + distributionYears pc years))%Z
          then distPerYear pc years else 0).
Proof.
  intros He Ht Hi. rewrite generatePrivateSchedules_on by assumption.
  cbn [calls distributions].
  rewrite !fillRange_zeros_lookup by lia. split.
  - replace (0 <=? Z.of_nat i)%Z with true by (symmetry; apply Z.leb_le; lia).
    reflexivity.
  - f_equal.
    destruct (distLagYears pc <=? Z.of_nat i)%Z eqn:E1; [|reflexivity].
    cbn [andb].
    destruct (Z.of_nat i <? distLagYears pc + distributionYears pc years)%Z
      eqn:E2.
    + replace (Z.of_nat i <? Z.min _ _)%Z with true; [reflexivity|].
      symmetry. apply Z.ltb_lt. lia.
    + replace (Z.of_nat i <? Z.min _ _)%Z with false; [reflexivity|].
      symmetry. apply Z.ltb_ge. lia.
Qed.

Lemma generatePrivateSchedules_distributions_values (i : nat) (x : Q) :
  distributions (generatePrivateSchedules pc years) !! i = Some x ->
  x = 0 \/ x = distPerYear pc years.
Proof.
  intros Hx.
  assert (Hi : (i <= years)%nat).
  { apply lookup_lt_Some in Hx.
    rewrite (proj2 generatePrivateSchedules_lengths) in Hx. lia. }
  destruct (enabled pc) eqn:He.
  - destruct (Qlt_le_dec 0 (totalCommitment pc)) as [Ht|Ht].
    + destruct (generatePrivateSchedules_lookup i He Ht Hi) as [_ Hd].
      rewrite Hd in Hx. injection Hx as <-.
      destruct (_ && _); [right|left]; reflexivity.
    + rewrite generatePrivateSchedules_off in Hx by (right; exact Ht).
      cbn [distributions] in Hx.
      apply lookup_replicate in Hx as [-> _]. left. reflexivity.
  - rewrite generatePrivateSchedules_off in Hx by (left; exact He).
    cbn [distributions] in Hx.
    apply lookup_replicate in Hx as [-> _]. left. reflexivity.
Qed.

End Scheduler.


(** ** Deterministic simulator *)

Section YearLoop.

Variable params : Params.
Variable allocation : Allocation.
Variables privateCalls privateDistributions : list Q.

Let step := simulateYear params allocation privateCalls privateDistributions.
Let loop := yearLoop params allocation privateCalls privateDistributions.

Lemma yearLoop_S remaining yearIndex st :
  loop (S remaining) yearIndex st
  = if leq (wealth (fst (step yearIndex st))) 0
    then [fst (step yearIndex st)]
    else fst (step yearIndex st)
         :: loop remaining (S yearIndex) (snd (step yearIndex st)).
Proof.
  subst loop step. cbn [yearLoop].
  destruct (simulateYear _ _ _ _ yearIndex st) as [row st']. reflexivity.
Qed.

(** A property of every row a turn can push holds of every row of the
    loop. *)
Lemma yearLoop_Forall (P : SimulationRow -> Prop) :
  (forall yearIndex st, P (fst (step yearIndex st))) ->
  forall remaining yearIndex st, Forall P (loop remaining yearIndex st).
Proof.
  intros HP. induction remaining as [|k IH]; intros yearIndex st.
  - constructor.
  - rewrite yearLoop_S. destruct (leq _ 0).
    + constructor; [apply HP|constructor].
    + constructor; [apply HP|apply IH].
Qed.

Lemma simulateYear_liquid yearIndex st :
  0 <= liquidWealth (fst (step yearIndex st)) /\
  0 <= liquidityYears (fst (step yearIndex st)).
Proof.
  subst step. unfold simulateYear. cbn [fst liquidWealth liquidityYears].
  split; [apply Qmax_nonneg_l|].
  apply Qmult_le_0_compat; [apply Qmax_nonneg_l|].
  apply Qinv_le_0_compat.
  apply Qle_trans with 1; [discriminate|apply Q.le_max_l].
Qed.

(** The rows of the loop: a run of rows with positive wealth, closed
    either by the end of the horizon or by one row that is not positive. *)
Lemma yearLoop_shape : forall remaining yearIndex st,
  (Forall positiveWealth (loop remaining yearIndex st) /\
   length (loop remaining yearIndex st) = remaining) \/
  (exists pre final,
     loop remaining yearIndex st = pre ++ [final] /\
     Forall positiveWealth pre /\
     wealth final <= 0 /\
     (length pre < remaining)%nat).
Proof.
  induction remaining as [|k IH]; intros yearIndex st.
  - left. split; [constructor|reflexivity].
  - rewrite yearLoop_S.
    destruct (leq (wealth (fst (step yearIndex st))) 0) eqn:E.
    + right. exists [], (fst (step yearIndex st)).
      split; [reflexivity|]. split; [constructor|].
      split; [apply leq_true, E|cbn [length]; lia].
    + apply leq_false in E.
      destruct (IH (S yearIndex) (snd (step yearIndex st)))
        as [[Hall Hlen]|(pre & final & Heq & Hpre & Hfin & Hlen)].
      * left. split; [constructor; assumption|].
        cbn [length]. rewrite Hlen. reflexivity.
      * right. exists (fst (step yearIndex st) :: pre), final.
        rewrite Heq. split; [reflexivity|].
        split; [constructor; assumption|].
        split; [exact Hfin|cbn [length]; lia].
Qed.

Lemma yearLoop_row_year : forall remaining yearIndex st (i : nat) row,
  loop remaining yearIndex st !! i = Some row ->
  row_year row = Z.of_nat (yearIndex + i).
Proof.
  induction remaining as [|k IH]; intros yearIndex st i row H.
  - discriminate H.
  - rewrite yearLoop_S in H.
    assert (H0 : row_year (fst (step yearIndex st)) = Z.of_nat yearIndex).
    { subst step. unfold simulateYear. reflexivity. }
    destruct (leq _ 0).
    + destruct i as [|i]; [|destruct i; discriminate H].
      injection H as <-. rewrite Nat.add_0_r. exact H0.
    + destruct i as [|i].
      * injection H as <-. rewrite Nat.add_0_r. exact H0.
      * cbn in H. apply IH in H. rewrite H. f_equal. lia.
Qed.

End YearLoop.

(** [findIndex] on a list none of whose elements passes the test. *)
Lemma findIndexFrom_none {A : Type} (f : A -> bool) (l : list A) :
  Forall (fun x => f x = false) l -> forall k, findIndexFrom f l k = (-1)%Z.
Proof.
  induction 1 as [|x t Hx _ IH]; intros k; cbn; [reflexivity|].
  rewrite Hx. apply IH.
Qed.

(** [findIndex] stops at the first element that passes the test. *)
Lemma findIndexFrom_first {A : Type} (f : A -> bool) (pre : list A) x t :
  Forall (fun x => f x = false) pre -> f x = true ->
  forall k,
    findIndexFrom f (pre ++ x :: t) k = (k + Z.of_nat (length pre))%Z.
Proof.
  intros Hpre Hx. induction Hpre as [|y pre' Hy _ IH]; intros k; cbn.
  - rewrite Hx. lia.
  - rewrite Hy, IH. lia.
Qed.

Lemma simulateDeterministic_rows (input : Params) :
  rows (simulateDeterministic input)
  = yearLoop input (normalizeAllocation (assetAlloc input))
      (calls (generatePrivateSchedules (privCommit input) (horizon input)))
      (distributions
         (generatePrivateSchedules (privCommit input) (horizon input)))
      (S (horizon input)) 0
      (mkYearState (startWealth input)
         (startWealth input * clamp (liquidShare input) 0 1)
         (annualExpenseNow input)).
Proof. reflexivity. Qed.

Lemma simulateDeterministic_brokeYear (input : Params) :
  brokeYear (simulateDeterministic input)
  = findIndex (fun row => leq (wealth row) 0)
      (rows (simulateDeterministic input)).
Proof. reflexivity. Qed.

Lemma positiveWealth_leq (l : list SimulationRow) :
  Forall positiveWealth l ->
  Forall (fun row => leq (wealth row) 0 = false) l.
Proof.
  intros Hall. eapply Forall_impl; [exact Hall|].
  intros row H. apply leq_false, H.
Qed.

(** C4: every row but the last has positive wealth; [brokeYear] is -1
    when no row has wealth [<= 0], and otherwise the index of the first
    such row, which is the last row; and when no row has wealth [<= 0]
    there are exactly [years + 1] rows. *)
Theorem simulateDeterministic_stops_at_ruin (input : Params) :
  let result := simulateDeterministic input in
  let years := horizon input in
  (forall (i : nat) row,
     rows result !! i = Some row -> (S i < length (rows result))%nat ->
     0 < wealth row) /\
  ((brokeYear result = (-1)%Z /\ Forall positiveWealth (rows result)) \/
   (exists i : nat,
      brokeYear result = Z.of_nat i /\
      firstNonPositiveAt (rows result) i /\
      length (rows result) = S i)) /\
  (Forall positiveWealth (rows result) -> length (rows result) = S years) /\
  (1 <= length (rows result) <= S years)%nat.
Proof.
  intros result years. subst result years.
  rewrite simulateDeterministic_brokeYear, simulateDeterministic_rows.
  pose proof
    (yearLoop_shape input (normalizeAllocation (assetAlloc input))
       (calls (generatePrivateSchedules (privCommit input) (horizon input)))
       (distributions
          (generatePrivateSchedules (privCommit input) (horizon input)))
       (S (horizon input)) 0%nat
       (mkYearState (startWealth input)
          (startWealth input * clamp (liquidShare input) 0 1)
          (annualExpenseNow input))) as Hshape.
  set (l := yearLoop _ _ _ _ _ _ _) in *.
  destruct Hshape
    as [[Hall Hlen]|(pre & final & Heq & Hpre & Hfin & Hlen)].
  - split; [|split; [|split]].
    + intros i row Hi _. exact (proj1 (Forall_lookup _ _) Hall i row Hi).
    + left. split; [|exact Hall].
      apply findIndexFrom_none, positiveWealth_leq, Hall.
    + intros _. exact Hlen.
    + lia.
  - assert (Hl : length l = S (length pre)).
    { rewrite Heq, length_app. cbn [length]. lia. }
    split; [|split; [|split]].
    + intros i row Hi Hlt.
      rewrite Heq, lookup_app_l in Hi by lia.
      exact (proj1 (Forall_lookup _ _) Hpre i row Hi).
    + right. exists (length pre). split; [|split; [split|]].
      * rewrite Heq. unfold findIndex.
        rewrite findIndexFrom_first;
          [lia|apply positiveWealth_leq, Hpre|apply leq_true, Hfin].
      * exists final. split; [|exact Hfin].
        rewrite Heq. apply list_lookup_middle. reflexivity.
      * intros j row Hj Hrow.
        rewrite Heq, lookup_app_l in Hrow by exact Hj.
        exact (proj1 (Forall_lookup _ _) Hpre j row Hrow).
      * exact Hl.
    + intros Hall. rewrite Heq in Hall.
      apply Forall_app in Hall as [_ Hf].
      apply Forall_inv in Hf. unfold positiveWealth in Hf. lra.
    + lia.
Qed.

(** C10: in every row the liquid wealth is at least 0, and so is the
    liquidity runway. *)
Theorem liquid_wealth_never_negative (input : Params) :
  Forall (fun row => 0 <= liquidWealth row /\ 0 <= liquidityYears row)
    (rows (simulateDeterministic input)).
Proof.
  rewrite simulateDeterministic_rows.
  apply yearLoop_Forall. intros yearIndex st. apply simulateYear_liquid.
Qed.

(** ** Monte Carlo *)

Lemma findIndexFrom_range {A : Type} (f : A -> bool) (l : list A) :
  forall k, (0 <= k)%Z ->
    findIndexFrom f l k = (-1)%Z \/ (k <= findIndexFrom f l k)%Z.
Proof.
  induction l as [|x t IH]; intros k Hk; cbn; [left; reflexivity|].
  destruct (f x); [right; lia|].
  destruct (IH (k + 1)%Z) as [H|H]; [lia|left; exact H|right; lia].
Qed.

Lemma findIndexFrom_existsb {A : Type} (f : A -> bool) (l : list A) :
  forall k, (0 <= k)%Z ->
    negb (findIndexFrom f l k =? -1)%Z = existsb f l.
Proof.
  induction l as [|x t IH]; intros k Hk; cbn; [reflexivity|].
  destruct (f x); cbn.
  - destruct (k =? -1)%Z eqn:E; [lia|reflexivity].
  - apply IH. lia.
Qed.

Lemma touchesZero_hasNonPositive trajectory :
  touchesZero trajectory = hasNonPositive trajectory.
Proof.
  unfold touchesZero, hasNonPositive, findIndex.
  apply findIndexFrom_existsb. lia.
Qed.

Lemma countRuined_from (l : list (list Q)) : forall acc : Z,
  fold_left
    (fun ruinCount trajectory =>
       if touchesZero trajectory then (ruinCount + 1)%Z else ruinCount)
    l acc
  = (acc + Z.of_nat (ruinedPaths l))%Z.
Proof.
  unfold ruinedPaths.
  induction l as [|t l IH]; intros acc; cbn [fold_left List.filter].
  - cbn. lia.
  - rewrite IH, touchesZero_hasNonPositive.
    destruct (hasNonPositive t); cbn [length]; lia.
Qed.

Lemma countRuined_ruinedPaths (l : list (list Q)) :
  countRuined l = Z.of_nat (ruinedPaths l).
Proof. unfold countRuined. rewrite countRuined_from. lia. Qed.

Lemma ruinedPaths_le (l : list (list Q)) : (ruinedPaths l <= length l)%nat.
Proof.
  unfold ruinedPaths. induction l as [|t l IH]; cbn; [lia|].
  destruct (hasNonPositive t); cbn; lia.
Qed.

Lemma pathLoop_length boxMuller params allocation years :
  forall remaining pathIdx,
    length (pathLoop boxMuller params allocation years remaining pathIdx)
    = remaining.
Proof.
  induction remaining as [|k IH]; intros pathIdx; cbn [pathLoop length];
    [reflexivity|].
  rewrite IH. reflexivity.
Qed.

Lemma inject_nat_div_bounds (a b : nat) :
  (a <= b)%nat -> (0 < b)%nat ->
  0 <= inject_Z (Z.of_nat a) / inject_Z (Z.of_nat b) <= 1.
Proof.
  intros Hab Hb.
  assert (Hb' : 0 < inject_Z (Z.of_nat b)).
  { replace 0 with (inject_Z 0) by reflexivity. rewrite <- Zlt_Qlt. lia. }
  assert (Ha' : 0 <= inject_Z (Z.of_nat a)).
  { replace 0 with (inject_Z 0) by reflexivity. rewrite <- Zle_Qle. lia. }
  assert (Hab' : inject_Z (Z.of_nat a) <= inject_Z (Z.of_nat b)).
  { rewrite <- Zle_Qle. lia. }
  split.
  - apply Qle_shift_div_l; [exact Hb'|]. lra.
  - apply Qle_shift_div_r; [exact Hb'|]. lra.
Qed.

(** C8: at most 2,000 paths are run; when any are, [ruinProbability] is
    the number of paths with a value [<= 0] in their trajectory divided
    by the number of paths; without paths it is 0; it lies in [0, 1]. *)
Theorem ruinProbability_is_ruined_fraction
    (boxMuller : nat -> Q) (params : Params) :
  let result := simulateMonteCarlo boxMuller params in
  let run := length (paths result) in
  run = Z.to_nat (Z.min (numPaths params) 2000) /\
  (run <= 2000)%nat /\
  ((0 < run)%nat ->
     ruinProbability result
     == inject_Z (Z.of_nat (ruinedPaths (paths result))) /
        inject_Z (Z.of_nat run)) /\
  (run = 0%nat -> ruinProbability result == 0) /\
  0 <= ruinProbability result <= 1.
Proof.
  intros result run. subst run result. unfold simulateMonteCarlo.
  cbn [paths ruinProbability]. unfold MAX_MONTE_CARLO_PATHS.
  set (n := Z.min (numPaths params) 2000).
  set (l := pathLoop _ _ _ _ _ _).
  assert (Hlen : length l = Z.to_nat n) by apply pathLoop_length.
  rewrite countRuined_ruinedPaths.
  pose proof (ruinedPaths_le l) as Hle.
  assert (Hn : (n <= 2000)%Z) by (subst n; lia).
  split; [exact Hlen|]. split; [lia|].
  destruct (n =? 0)%Z eqn:E.
  - apply Z.eqb_eq in E.
    split; [intros H; lia|]. split; [reflexivity|]. split; discriminate.
  - apply Z.eqb_neq in E.
    destruct (Z.lt_ge_cases 0 n) as [Hpos|Hneg].
    + assert (Hn' : n = Z.of_nat (length l)) by lia.
      rewrite Hn'.
      split; [reflexivity|]. split; [intros H; lia|].
      apply inject_nat_div_bounds; lia.
    + assert (H0 : length l = 0%nat) by lia.
      assert (Hr : ruinedPaths l = 0%nat) by lia.
      rewrite Hr.
      assert (Hz : inject_Z (Z.of_nat 0) / inject_Z n == 0).
      { unfold Qdiv. change (inject_Z (Z.of_nat 0)) with 0. ring. }
      split; [intros H; lia|]. split; [intros _; exact Hz|].
      rewrite Hz. split; discriminate.
Qed.

(** ** Reverse solver *)

Section ReverseSolver.

Variable params : Params.

Let target := desiredTerminalWealth params.
Let run (guess : Q) := simulateDeterministic (withStartWealth params guess).
Let diffAt (guess : Q) := terminalWealth (run guess) - target.

(** One turn: the midpoint is simulated; within the tolerance the loop
    is left with the bounds as they are, otherwise one bound moves to the
    midpoint. *)
Lemma searchStep_cases tol (st : SearchState) :
  let guess := (low st + high st) / 2 in
  let st' := fst (searchStep params target tol st) in
  let stop := snd (searchStep params target tol st) in
  bestGuess st' = guess /\
  bestResult st' = Some (run guess) /\
  runs st' = S (runs st) /\
  (Qabs (diffAt guess) < tol ->
     stop = true /\ low st' = low st /\ high st' = high st) /\
  (tol <= Qabs (diffAt guess) ->
     stop = false /\
     (0 < diffAt guess -> low st' = low st /\ high st' = guess) /\
     (diffAt guess <= 0 -> low st' = guess /\ high st' = high st)).
Proof.
  intros guess st' stop. subst st' stop. unfold searchStep.
  fold guess. fold (run guess). fold (diffAt guess).
  destruct (ltq (Qabs (diffAt guess)) tol) eqn:Etol.
  - apply ltq_true in Etol. cbn [fst snd bestGuess bestResult runs low high].
    repeat split; try reflexivity; intros; lra.
  - apply ltq_false in Etol.
    destruct (gtq (diffAt guess) 0) eqn:Ediff.
    + apply gtq_true in Ediff.
      cbn [fst snd bestGuess bestResult runs low high].
      repeat split; try reflexivity; intros; lra.
    + apply gtq_false in Ediff.
      cbn [fst snd bestGuess bestResult runs low high].
      repeat split; try reflexivity; intros; lra.
Qed.

Lemma searchLoop_S tol remaining st :
  searchLoop params target tol (S remaining) st
  = if snd (searchStep params target tol st)
    then fst (searchStep params target tol st)
    else searchLoop params target tol remaining
           (fst (searchStep params target tol st)).
Proof.
  cbn [searchLoop]. destruct (searchStep params target tol st). reflexivity.
Qed.

Lemma midpoint_between (a b : Q) : a <= b -> a <= (a + b) / 2 <= b.
Proof.
  intros H. split.
  - apply Qle_shift_div_l; lra.
  - apply Qle_shift_div_r; lra.
Qed.

(** What the loop leaves after at least one turn, started with
    [low <= high]. *)
Lemma searchLoop_invariant tol : forall remaining st,
  low st <= high st ->
  let st' := searchLoop params target tol (S remaining) st in
  (runs st < runs st' <= runs st + S remaining)%nat /\
  bestResult st' = Some (run (bestGuess st')) /\
  low st <= low st' /\ low st' <= bestGuess st' <= high st' /\
  high st' <= high st /\
  ((runs st' < runs st + S remaining)%nat ->
   Qabs (diffAt (bestGuess st')) < tol).
Proof.
  induction remaining as [|k IH]; intros st Hlh st'; subst st';
    rewrite searchLoop_S;
    destruct (searchStep_cases tol st)
      as (Hg & Hr & Hn & Hin & Hout);
    pose proof (midpoint_between _ _ Hlh) as Hmid;
    destruct (Qlt_le_dec (Qabs (diffAt ((low st + high st) / 2))) tol)
      as [Ht|Ht].
  - destruct (Hin Ht) as (-> & Hl & Hh).
    rewrite Hg, Hr, Hn, Hl, Hh.
    repeat split; try lia; try lra; try (intros _; exact Ht).
  - destruct (Hout Ht) as (-> & Hpos & Hneg). cbn [searchLoop].
    rewrite Hg, Hr, Hn.
    destruct (Qlt_le_dec 0 (diffAt ((low st + high st) / 2))) as [Hd|Hd].
    + destruct (Hpos Hd) as [-> ->]. repeat split; try lia; lra.
    + destruct (Hneg Hd) as [-> ->]. repeat split; try lia; lra.
  - destruct (Hin Ht) as (-> & Hl & Hh).
    rewrite Hg, Hr, Hn, Hl, Hh.
    repeat split; try lia; try lra; try (intros _; exact Ht).
  - destruct (Hout Ht) as (-> & Hpos & Hneg).
    set (st1 := fst (searchStep params target tol st)) in *.
    assert (Hlh1 : low st1 <= high st1 /\ low st <= low st1 /\
                   high st1 <= high st).
    { destruct (Qlt_le_dec 0 (diffAt ((low st + high st) / 2))) as [Hd|Hd].
      - destruct (Hpos Hd) as [-> ->]. lra.
      - destruct (Hneg Hd) as [-> ->]. lra. }
    destruct Hlh1 as (Hlh1 & Hlow1 & Hhigh1).
    destruct (IH st1 Hlh1) as (Hruns & Hres & Hlo & Hbest & Hhi & Hstop).
    rewrite Hn in Hruns, Hstop.
    repeat split; try lia; try lra; try tauto.
    intros Hlt. apply Hstop. lia.
Qed.

(** The loop is the iteration of [searchStep]: it takes turns until one
    of them meets the tolerance or none is left. *)
Lemma searchLoop_trace : forall remaining st,
  exists (n : nat) (stopped : bool),
    searchTrace params n st
      (searchLoop params target tolerance (S remaining) st) stopped /\
    (1 <= n <= S remaining)%nat /\
    (stopped = true \/ n = S remaining) /\
    runs (searchLoop params target tolerance (S remaining) st)
    = (runs st + n)%nat.
Proof.
  induction remaining as [|k IH]; intros st; rewrite searchLoop_S;
    destruct (searchStep_cases tolerance st) as (_ & _ & Hn & _);
    unfold searchTrace; fold target;
    pose proof (trace_last (searchStep params target tolerance) st)
      as Hlast;
    destruct (snd (searchStep params target tolerance st)) eqn:E.
  - exists 1%nat, true.
    split; [exact Hlast|]. split; [lia|]. split; [left; reflexivity|].
    rewrite Hn. lia.
  - exists 1%nat, false. cbn [searchLoop].
    split; [exact Hlast|]. split; [lia|]. split; [right; reflexivity|].
    rewrite Hn. lia.
  - exists 1%nat, true.
    split; [exact Hlast|]. split; [lia|]. split; [left; reflexivity|].
    rewrite Hn. lia.
  - destruct (IH (fst (searchStep params target tolerance st)))
      as (n & stopped & Htrace & Hrange & Hstop & Hruns).
    unfold searchTrace in Htrace. fold target in Htrace.
    exists (S n), stopped.
    split; [apply trace_next; [exact E|exact Htrace]|].
    split; [lia|]. split; [destruct Hstop as [->| ->]; auto|].
    rewrite Hruns, Hn. lia.
Qed.

Lemma initialBounds_ordered :
  fst (initialBounds params) <= snd (initialBounds params).
Proof.
  unfold initialBounds.
  destruct (gtq (lifetimeSpendingTotal params) 0); cbn [fst snd];
    [|discriminate].
  set (r := lifetimeSpendingTotal params + desiredTerminalWealth params).
  destruct (Q.max_spec 0 (r * 0.5)) as [[_ ->]|[_ ->]];
    destruct (Q.max_spec 1000000000 (r * 2)) as [[H ->]|[H ->]]; lra.
Qed.

End ReverseSolver.

Lemma reverseSearch_unfold (params : Params) :
  reverseSearch params
  = searchLoop params (desiredTerminalWealth params) tolerance 50
      (mkSearchState (fst (initialBounds params)) (snd (initialBounds params))
         0 None 0).
Proof.
  unfold reverseSearch. destruct (initialBounds params). reflexivity.
Qed.

Lemma reverseSearch_invariant (params : Params) :
  let st := reverseSearch params in
  let run guess := simulateDeterministic (withStartWealth params guess) in
  (1 <= runs st <= 50)%nat /\
  bestResult st = Some (run (bestGuess st)) /\
  fst (initialBounds params) <= low st /\
  low st <= bestGuess st <= high st /\
  high st <= snd (initialBounds params) /\
  ((runs st < 50)%nat ->
   Qabs (terminalWealth (run (bestGuess st)) - desiredTerminalWealth params)
   < tolerance).
Proof.
  intros st run. subst st run. rewrite reverseSearch_unfold.
  pose proof (searchLoop_invariant params tolerance 49
                (mkSearchState (fst (initialBounds params))
                   (snd (initialBounds params)) 0 None 0)
                (initialBounds_ordered params)) as H.
  exact H.
Qed.

Lemma reverseSearch_trace (params : Params) :
  exists (n : nat) (stopped : bool),
    searchTrace params n (initialSearchState params) (reverseSearch params)
      stopped /\
    (1 <= n <= 50)%nat /\
    (stopped = true \/ n = 50%nat) /\
    runs (reverseSearch params) = n.
Proof.
  rewrite reverseSearch_unfold.
  exact (searchLoop_trace params 49 (initialSearchState params)).
Qed.

Lemma calculateReverse_outputs (params : Params) :
  let st := reverseSearch params in
  let best :=
    match bestResult st with
    | Some result => result
    | None => simulateDeterministic (withStartWealth params (bestGuess st))
    end in
  requiredStartingWealth (calculateReverse params) = bestGuess st /\
  reverse_rows (calculateReverse params) = rows best /\
  calculatedTerminalWealth (calculateReverse params) = terminalWealth best.
Proof. repeat split. Qed.


(** ** Bounds on the rates *)

Lemma scale_nonneg (x k : Q) : 0 <= x -> 0 <= k -> 0 <= x * k.
Proof. intros Hx Hk. nra. Qed.

Lemma withholding_bounds (own : Q) :
  0 <= calculateUSDividendWithholdingTax own <= 0.3.
Proof.
  unfold calculateUSDividendWithholdingTax.
  destruct (geq own US_MIN_OWNERSHIP_FOR_0PCT);
    [|destruct (geq own US_MIN_OWNERSHIP_FOR_5PCT)];
    unfold US_DIVIDEND_WITHHOLDING_TREATY_80PCT,
      US_DIVIDEND_WITHHOLDING_TREATY_10PCT, US_DIVIDEND_WITHHOLDING_STANDARD;
    lra.
Qed.

(** ** Wealth without outflows *)

Section ZeroFlows.

Variable params : Params.
Variable allocation : Allocation.
Variables privateCalls privateDistributions : list Q.

Hypothesis Hspend : zeroSpending params.
Hypothesis Hphil : zeroPhilanthropy params.
Hypothesis Hoff : oneOffs params = [].
Hypothesis Hcalls : forall i : nat, default 0 (privateCalls !! i) = 0.
Hypothesis Hdists : forall i : nat, default 0 (privateDistributions !! i) = 0.

Let step := simulateYear params allocation privateCalls privateDistributions.

Lemma computeSpending_zero w yearIndex last :
  (spendingRule params = SpendGuardrails -> last == 0) ->
  computeSpending params w yearIndex last == 0.
Proof.
  intros Hl. unfold computeSpending, zeroSpending in *.
  destruct (spendingRule params).
  - rewrite Hspend. ring.
  - rewrite Hspend. ring.
  - specialize (Hl eq_refl). unfold clamp.
    set (lo := last * _). set (hi := last * _).
    assert (Hlo : lo == 0) by (subst lo; rewrite Hl; ring).
    assert (Hhi : hi == 0) by (subst hi; rewrite Hl; ring).
    rewrite Hlo, Hhi.
    apply Q.max_l. apply Q.le_min_l.
Qed.

Lemma computePhilanthropy_zero w yearIndex :
  computePhilanthropy params w yearIndex == 0.
Proof.
  unfold computePhilanthropy, zeroPhilanthropy in *.
  destruct (philanthropyMode params); rewrite Hphil; ring.
Qed.

Lemma sumOneOffs_none yearIndex :
  sumOneOffs params yearIndex = mkOneOffTotals 0 0.
Proof. unfold sumOneOffs. rewrite Hoff. reflexivity. Qed.

Lemma simulateYear_carry yearIndex st :
  stWealth (snd (step yearIndex st)) = wealth (fst (step yearIndex st)) /\
  stLastYearSpend (snd (step yearIndex st))
  = computeSpending params (stWealth st) yearIndex (stLastYearSpend st).
Proof. split; reflexivity. Qed.

(** Without outflows a year adds its net return to the wealth, so the
    wealth does not fall in a year whose net return is not negative. *)
Lemma simulateYear_no_outflow yearIndex st :
  (spendingRule params = SpendGuardrails -> stLastYearSpend st == 0) ->
  0 <= netReturn (fst (step yearIndex st)) ->
  stWealth st <= wealth (fst (step yearIndex st)).
Proof.
  intros Hl. subst step. unfold simulateYear. cbn [fst wealth netReturn].
  rewrite sumOneOffs_none, Hcalls, Hdists.
  cbn [oneOffInflows oneOffOutflows].
  pose proof (computeSpending_zero (stWealth st) yearIndex _ Hl) as HE.
  pose proof (computePhilanthropy_zero (stWealth st) yearIndex) as HP.
  set (E := computeSpending _ _ _ _) in *.
  set (Ph := computePhilanthropy _ _ _) in *.
  set (net := _ * _ - computeTaxes _ _ _ _ _ _ _).
  intros Hnet. lra.
Qed.

Lemma yearLoop_nonDecreasing : forall remaining yearIndex st,
  (spendingRule params = SpendGuardrails -> stLastYearSpend st == 0) ->
  Forall (fun row => 0 <= netReturn row)
    (yearLoop params allocation privateCalls privateDistributions
       remaining yearIndex st) ->
  nonDecreasingFrom (stWealth st)
    (map wealth
       (yearLoop params allocation privateCalls privateDistributions
          remaining yearIndex st)).
Proof.
  induction remaining as [|k IH]; intros yearIndex st Hl; [intros _; exact I|].
  rewrite yearLoop_S. fold step.
  pose proof (simulateYear_no_outflow yearIndex st Hl) as Hw.
  destruct (simulateYear_carry yearIndex st) as [Hc1 Hc2].
  destruct (leq _ 0); intros Hall; apply Forall_cons in Hall as [Hnet Hrest].
  - cbn [map nonDecreasingFrom]. split; [exact (Hw Hnet)|exact I].
  - cbn [map nonDecreasingFrom]. split; [exact (Hw Hnet)|].
    rewrite <- Hc1. apply IH; [|exact Hrest]. intros _. rewrite Hc2.
    apply computeSpending_zero, Hl.
Qed.

End ZeroFlows.

Lemma replicate_zero_default (n i : nat) :
  default 0 (replicate n (0 : Q) !! i) = 0.
Proof.
  destruct (replicate n 0 !! i) as [x|] eqn:E; [|reflexivity].
  apply lookup_replicate in E as [-> _]. reflexivity.
Qed.




(** * More properties of the engine and of its callers *)

(** ** More on the tax engine *)

Ltac case_geq :=
  repeat match goal with
  | |- context [geq ?a ?b] =>
      let E := fresh "E" in
      destruct (geq a b) eqn:E;
      [apply geq_true in E | apply geq_false in E]
  end.

(** The U.S. withholding rate never rises with the ownership share. *)
Theorem withholding_falls_with_ownership (o1 o2 : Q) :
  o1 <= o2 ->
  calculateUSDividendWithholdingTax o2 <= calculateUSDividendWithholdingTax o1.
Proof.
  intros H. unfold calculateUSDividendWithholdingTax,
    US_MIN_OWNERSHIP_FOR_0PCT, US_MIN_OWNERSHIP_FOR_5PCT,
    US_DIVIDEND_WITHHOLDING_TREATY_80PCT,
    US_DIVIDEND_WITHHOLDING_TREATY_10PCT, US_DIVIDEND_WITHHOLDING_STANDARD.
  case_geq; lra.
Qed.

Lemma withholding_falls_with_ownership_witness :
  calculateUSDividendWithholdingTax 0.8 <= calculateUSDividendWithholdingTax 0.1.
Proof.
  apply (withholding_falls_with_ownership 0.1 0.8). lra.
Defined.

(** On a non-negative dividend and trade tax rate, the German dividend
    tax never rises with the ownership share: the 10% and the 15%
    thresholds only take tax away. *)
Theorem germanDividendTax_falls_with_ownership
    (dividendAmount o1 o2 tradeTaxRate : Q) (isV : bool) :
  0 <= dividendAmount -> 0 <= tradeTaxRate -> o1 <= o2 ->
  calculateGermanDividendTax dividendAmount o2 tradeTaxRate isV
  <= calculateGermanDividendTax dividendAmount o1 tradeTaxRate isV.
Proof.
  intros Hd Hr Ho.
  assert (H : 0 <= dividendAmount * tradeTaxRate) by nra.
  unfold calculateGermanDividendTax, dividendTradeTax,
    calculateGermanCorporateTaxRate, GERMAN_DIVIDEND_EXEMPTION_RATE,
    GERMAN_CORPORATE_TAX_RATE, GERMAN_SOLIDARITY_SURCHARGE,
    GERMAN_MIN_OWNERSHIP_FOR_EXEMPTION,
    GERMAN_MIN_OWNERSHIP_FOR_TRADE_TAX_EXEMPTION.
  case_geq; destruct isV; cbn [negb]; lra.
Qed.

Lemma germanDividendTax_falls_with_ownership_witness :
  calculateGermanDividendTax 100 0.12 0.14 false
  <= calculateGermanDividendTax 100 0.05 0.14 false.
Proof.
  apply (germanDividendTax_falls_with_ownership 100 0.05 0.12 0.14 false); lra.
Defined.

Lemma mul_le_mono_r (x y k : Q) : x <= y -> 0 <= k -> x * k <= y * k.
Proof. intros Hxy Hk. nra. Qed.

Lemma germanDividendTax_mono (x y own rate : Q) (isV : bool) :
  0 <= rate -> x <= y ->
  calculateGermanDividendTax x own rate isV
  <= calculateGermanDividendTax y own rate isV.
Proof.
  intros Hr Hxy.
  assert (H : x * rate <= y * rate) by (apply mul_le_mono_r; assumption).
  unfold calculateGermanDividendTax, dividendTradeTax,
    calculateGermanCorporateTaxRate, GERMAN_DIVIDEND_EXEMPTION_RATE,
    GERMAN_CORPORATE_TAX_RATE, GERMAN_SOLIDARITY_SURCHARGE.
  destruct (geq own GERMAN_MIN_OWNERSHIP_FOR_EXEMPTION);
    destruct (geq own GERMAN_MIN_OWNERSHIP_FOR_TRADE_TAX_EXEMPTION);
    destruct isV; cbn [negb]; lra.
Qed.

Section TaxShape.

Variable p : Params.
Variable alloc : Allocation.
Variables d R c V : Q.

(** With weights, yields and rates that are not negative, a larger base
    is never taxed less, in any jurisdiction. *)
Theorem full_tax_grows_with_base (B1 B2 : Q) :
  0 <= public alloc -> 0 <= private alloc -> 0 <= cash alloc ->
  0 <= d -> 0 <= R -> 0 <= c -> 0 <= V ->
  0 <= taxDividends p -> 0 <= taxRealizedGains p -> 0 <= taxInterest p ->
  0 <= germanTradeTaxRate (holdingCompanyStructure p) ->
  0 <= usCorporateTaxRate (holdingCompanyStructure p) ->
  B1 <= B2 ->
  computeHoldingCompanyTaxes p B1 alloc d R c V
  <= computeHoldingCompanyTaxes p B2 alloc d R c V.
Proof.
  intros Ha Hv Hk Hd HR Hc HV Htd Htg Hti Htrade Hus HB.
  set (h := holdingCompanyStructure p) in *.
  assert (He : 0 <= calculateGermanCorporateTaxRate (germanTradeTaxRate h)
                      (isVermoegensverwaltend h)).
  { unfold calculateGermanCorporateTaxRate, GERMAN_CORPORATE_TAX_RATE,
      GERMAN_SOLIDARITY_SURCHARGE.
    destruct (isVermoegensverwaltend h); lra. }
  pose proof (withholding_bounds (usOwnershipPct h)) as [Hw _].
  assert (Hpub : B1 * public alloc <= B2 * public alloc)
    by (apply mul_le_mono_r; assumption).
  assert (Hcash : B1 * cash alloc <= B2 * cash alloc)
    by (apply mul_le_mono_r; assumption).
  assert (Hpriv : B1 * private alloc <= B2 * private alloc)
    by (apply mul_le_mono_r; assumption).
  assert (Hdiv : B1 * public alloc * d <= B2 * public alloc * d)
    by (apply mul_le_mono_r; assumption).
  assert (Hgain : B1 * public alloc * R <= B2 * public alloc * R)
    by (apply mul_le_mono_r; assumption).
  assert (Hint : B1 * cash alloc * c <= B2 * cash alloc * c)
    by (apply mul_le_mono_r; assumption).
  assert (Hpg : B1 * private alloc * V <= B2 * private alloc * V)
    by (apply mul_le_mono_r; assumption).
  pose proof (germanDividendTax_mono _ _ (germanOwnershipPct h)
                (germanTradeTaxRate h) (isVermoegensverwaltend h)
                Htrade Hdiv) as Hdt.
  unfold computeHoldingCompanyTaxes, computeCustomTaxes, holdingTotalTax.
  fold h.
  set (e := calculateGermanCorporateTaxRate _ _) in *.
  set (w := calculateUSDividendWithholdingTax _) in *.
  set (u := usCorporateTaxRate h) in *.
  set (dt1 := calculateGermanDividendTax (B1 * public alloc * d) _ _ _) in *.
  set (dt2 := calculateGermanDividendTax (B2 * public alloc * d) _ _ _) in *.
  pose proof (mul_le_mono_r _ _ _ Hdiv Htd) as C1.
  pose proof (mul_le_mono_r _ _ _ Hgain Htg) as C2.
  pose proof (mul_le_mono_r _ _ _ Hint Hti) as C3.
  pose proof (mul_le_mono_r _ _ _ Hpg Htg) as C4.
  pose proof (mul_le_mono_r _ _ _ Hint He) as G1.
  pose proof (mul_le_mono_r _ _ _ Hgain He) as G2.
  pose proof (mul_le_mono_r _ _ _ Hpg He) as G3.
  pose proof (mul_le_mono_r _ _ _ Hdiv Hw) as G4.
  assert (U : (B1 * public alloc * d + B1 * cash alloc * c +
               B1 * public alloc * R + B1 * private alloc * V) * u
              <= (B2 * public alloc * d + B2 * cash alloc * c +
                  B2 * public alloc * R + B2 * private alloc * V) * u)
    by (apply mul_le_mono_r; [lra|exact Hus]).
  destruct (taxJurisdiction p);
    try destruct (publicDividendSource h);
    apply Q.max_le_compat_l; lra.
Qed.

(** The liquid-only tax leaves out the private bucket, so it is the same
    as the full tax when nothing is allocated to private assets. *)
Theorem liquid_tax_is_full_tax_without_private (B : Q) :
  private alloc == 0 ->
  computeLiquidHoldingCompanyTaxes p B alloc d R c
  == computeHoldingCompanyTaxes p B alloc d R c V.
Proof.
  intros Hv.
  assert (Hz : B * private alloc * V == 0) by (rewrite Hv; ring).
  unfold computeLiquidHoldingCompanyTaxes, computeHoldingCompanyTaxes,
    computeLiquidCustomTaxes, computeCustomTaxes, liquidTotalTax,
    holdingTotalTax.
  set (x := B * private alloc * V) in *.
  destruct (taxJurisdiction p);
    try destruct (publicDividendSource (holdingCompanyStructure p));
    apply Q.max_compat; try reflexivity; rewrite Hz; ring.
Qed.

(** With a non-negative private realized gain and non-negative rates the
    liquid-only tax never exceeds the full tax. *)
Theorem liquid_tax_le_full_tax (B : Q) :
  0 <= B * private alloc * V ->
  0 <= taxRealizedGains p ->
  0 <= germanTradeTaxRate (holdingCompanyStructure p) ->
  0 <= usCorporateTaxRate (holdingCompanyStructure p) ->
  computeLiquidHoldingCompanyTaxes p B alloc d R c
  <= computeHoldingCompanyTaxes p B alloc d R c V.
Proof.
  intros Hx Hg Ht Hu.
  assert (He : 0 <= calculateGermanCorporateTaxRate
                      (germanTradeTaxRate (holdingCompanyStructure p))
                      (isVermoegensverwaltend (holdingCompanyStructure p))).
  { unfold calculateGermanCorporateTaxRate, GERMAN_CORPORATE_TAX_RATE,
      GERMAN_SOLIDARITY_SURCHARGE.
    destruct (isVermoegensverwaltend _); lra. }
  unfold computeLiquidHoldingCompanyTaxes, computeHoldingCompanyTaxes,
    computeLiquidCustomTaxes, computeCustomTaxes, liquidTotalTax,
    holdingTotalTax.
  set (x := B * private alloc * V) in *.
  set (e := calculateGermanCorporateTaxRate _ _) in *.
  assert (H1 : 0 <= x * taxRealizedGains p) by nra.
  assert (H2 : 0 <= x * e) by nra.
  assert (H3 : 0 <= x * usCorporateTaxRate (holdingCompanyStructure p)) by nra.
  destruct (taxJurisdiction p);
    try destruct (publicDividendSource (holdingCompanyStructure p));
    apply Q.max_le_compat_l; lra.
Qed.

(** The combined jurisdiction charges the German tax plus, on dividends
    of U.S. source, the U.S. withholding: it is never below the German
    tax on a non-negative dividend income, and equal to it for any other
    source. *)
Theorem germany_us_adds_withholding (B : Q) :
  taxJurisdiction p = GermanyUS ->
  (0 <= B * public alloc * d ->
   computeHoldingCompanyTaxes (withJurisdiction p Germany) B alloc d R c V
   <= computeHoldingCompanyTaxes p B alloc d R c V) /\
  (publicDividendSource (holdingCompanyStructure p) <> SrcUS ->
   computeHoldingCompanyTaxes p B alloc d R c V
   = computeHoldingCompanyTaxes (withJurisdiction p Germany) B alloc d R c V).
Proof.
  intros Hj.
  unfold computeHoldingCompanyTaxes, holdingTotalTax.
  cbn [withJurisdiction taxJurisdiction holdingCompanyStructure].
  rewrite Hj. split.
  - intros Hd.
    pose proof (withholding_bounds
                  (usOwnershipPct (holdingCompanyStructure p))) as [Hw _].
    set (w := calculateUSDividendWithholdingTax _) in *.
    assert (H : 0 <= B * public alloc * d * w) by nra.
    destruct (publicDividendSource (holdingCompanyStructure p));
      apply Q.max_le_compat_l; lra.
  - intros Hs.
    destruct (publicDividendSource (holdingCompanyStructure p));
      [reflexivity|contradiction|reflexivity].
Qed.

End TaxShape.

Lemma full_tax_grows_with_base_witness :
  computeHoldingCompanyTaxes sampleParams 900000
    (assetAlloc sampleParams) 0.02 0.03 0.03 0.05
  <= computeHoldingCompanyTaxes sampleParams 1000000
       (assetAlloc sampleParams) 0.02 0.03 0.03 0.05.
Proof.
  apply (full_tax_grows_with_base sampleParams (assetAlloc sampleParams)
           0.02 0.03 0.03 0.05 900000 1000000); cbn; lra.
Defined.

Lemma liquid_tax_is_full_tax_without_private_witness :
  computeLiquidHoldingCompanyTaxes sampleParams 1000 allCash 0.02 0.03 0.03
  == computeHoldingCompanyTaxes sampleParams 1000 allCash 0.02 0.03 0.03 0.05.
Proof.
  apply (liquid_tax_is_full_tax_without_private sampleParams allCash
           0.02 0.03 0.03 0.05 1000).
  reflexivity.
Defined.

Lemma liquid_tax_le_full_tax_witness :
  computeLiquidHoldingCompanyTaxes sampleParams 1000000
    (assetAlloc sampleParams) 0.02 0.03 0.03
  <= computeHoldingCompanyTaxes sampleParams 1000000
       (assetAlloc sampleParams) 0.02 0.03 0.03 0.05.
Proof.
  apply (liquid_tax_le_full_tax sampleParams (assetAlloc sampleParams)
           0.02 0.03 0.03 0.05 1000000); cbn; lra.
Defined.

Lemma germany_us_adds_withholding_witness :
  let p := withJurisdiction sampleParams GermanyUS in
  (0 <= 1000 * public allCash * 0.02 ->
   computeHoldingCompanyTaxes (withJurisdiction p Germany) 1000 allCash
     0.02 0.03 0.03 0.05
   <= computeHoldingCompanyTaxes p 1000 allCash 0.02 0.03 0.03 0.05) /\
  (publicDividendSource (holdingCompanyStructure p) <> SrcUS ->
   computeHoldingCompanyTaxes p 1000 allCash 0.02 0.03 0.03 0.05
   = computeHoldingCompanyTaxes (withJurisdiction p Germany) 1000 allCash
       0.02 0.03 0.03 0.05).
Proof.
  apply (germany_us_adds_withholding
           (withJurisdiction sampleParams GermanyUS) allCash
           0.02 0.03 0.03 0.05 1000).
  reflexivity.
Defined.

(** ** Cashflow helpers *)

Lemma clamp_bounds (value lo hi : Q) :
  lo <= hi ->
  lo <= clamp value lo hi <= hi /\
  (lo <= value <= hi -> clamp value lo hi == value) /\
  (value <= lo -> clamp value lo hi == lo) /\
  (hi <= value -> clamp value lo hi == hi).
Proof.
  intros H. unfold clamp.
  destruct (Q.min_spec hi value) as [[H1 E1]|[H1 E1]];
    destruct (Q.max_spec lo (Qmin hi value)) as [[H2 E2]|[H2 E2]];
    rewrite E2, ?E1 in *; repeat split; intros; lra.
Qed.

(** [clamp] with ordered bounds keeps the value inside them, leaves a
    value that is inside unchanged and moves one that is outside to the
    nearer bound; with the bounds in the wrong order it returns the
    lower-bound argument, whatever the value. *)
Theorem clamp_keeps_inside (value lo hi : Q) :
  (lo <= hi ->
   lo <= clamp value lo hi <= hi /\
   (lo <= value <= hi -> clamp value lo hi == value) /\
   (value <= lo -> clamp value lo hi == lo) /\
   (hi <= value -> clamp value lo hi == hi)) /\
  (hi <= lo -> clamp value lo hi == lo).
Proof.
  split; [apply clamp_bounds|].
  intros H. unfold clamp. apply Q.max_l.
  apply Qle_trans with hi; [apply Q.le_min_l|exact H].
Qed.

Section Spending.

Variable params : Params.

(** Guardrails spending lies between the smaller and the larger of the
    two bounds, whichever way round [minChange] and [maxChange] are. *)
Theorem guardrails_within_bounds (wealth : Q) (yearIndex : nat) (last : Q) :
  spendingRule params = SpendGuardrails ->
  let inflation := if realMode params then 0 else expenseInflation params in
  let minSpend := last * (1 + inflation + minChange (guardrails params)) in
  let maxSpend := last * (1 + inflation + maxChange (guardrails params)) in
  Qmin minSpend maxSpend
  <= computeSpending params wealth yearIndex last
  <= Qmax minSpend maxSpend.
Proof.
  intros Hrule inflation minSpend maxSpend.
  unfold computeSpending. rewrite Hrule.
  fold inflation. fold minSpend. fold maxSpend.
  apply clamp_bounds.
  apply Qle_trans with minSpend; [apply Q.le_min_l|apply Q.le_max_l].
Qed.

(** Fixed spending is [annualExpenseNow] in year 0, and in real mode in
    every year: the inflation factor is then 1. *)
Theorem fixed_spending_base_year (wealth : Q) (yearIndex : nat) (last : Q) :
  spendingRule params = SpendFixed ->
  computeSpending params wealth 0 last == annualExpenseNow params /\
  (realMode params = true ->
   computeSpending params wealth yearIndex last == annualExpenseNow params).
Proof.
  intros Hrule. unfold computeSpending. rewrite Hrule. split.
  - change (Z.of_nat 0) with 0%Z.
    set (inflation := if realMode params then 0 else expenseInflation params).
    change ((1 + inflation) ^ 0) with 1. ring.
  - intros Hreal. rewrite Hreal.
    assert (E : 1 + 0 == 1) by ring.
    rewrite E, Qpower_1. ring.
Qed.

End Spending.

Lemma guardrails_within_bounds_witness :
  let last := 400000 in
  let inflation :=
    if realMode guardrailParams then 0 else expenseInflation guardrailParams in
  let minSpend :=
    last * (1 + inflation + minChange (guardrails guardrailParams)) in
  let maxSpend :=
    last * (1 + inflation + maxChange (guardrails guardrailParams)) in
  Qmin minSpend maxSpend
  <= computeSpending guardrailParams 10000000 1 last
  <= Qmax minSpend maxSpend.
Proof.
  apply (guardrails_within_bounds guardrailParams 10000000 1 400000).
  reflexivity.
Defined.

Lemma fixed_spending_base_year_witness :
  computeSpending sampleParams 1000000 0 0 == annualExpenseNow sampleParams /\
  (realMode sampleParams = true ->
   computeSpending sampleParams 1000000 2 0 == annualExpenseNow sampleParams).
Proof.
  apply (fixed_spending_base_year sampleParams 1000000 2 0). reflexivity.
Defined.

(** ** One-off events *)

Lemma fold_left_shift {A : Type} (f : A -> Q) (l : list A) : forall acc,
  fold_left (fun acc curr => acc + f curr) l acc
  == acc + fold_left (fun acc curr => acc + f curr) l 0.
Proof.
  induction l as [|x t IH]; intros acc; cbn [fold_left]; [ring|].
  rewrite IH, (IH (0 + f x)). ring.
Qed.

Lemma fold_left_nonneg {A : Type} (f : A -> Q) (l : list A) :
  Forall (fun x => 0 <= f x) l -> forall acc,
  0 <= acc -> 0 <= fold_left (fun acc curr => acc + f curr) l acc.
Proof.
  induction 1 as [|x t Hx _ IH]; intros acc Hacc; cbn [fold_left];
    [exact Hacc|].
  apply IH. lra.
Qed.

Lemma filter_idemp {A : Type} (f : A -> bool) (l : list A) :
  List.filter f (List.filter f l) = List.filter f l.
Proof.
  induction l as [|x t IH]; cbn [List.filter]; [reflexivity|].
  destruct (f x) eqn:E; cbn [List.filter]; rewrite ?E, IH; reflexivity.
Qed.

(** The one-off inflows and outflows of a year are both non-negative;
    they are those of the events dated that year alone, whatever other
    events the scenario holds, and both are 0 when no event is dated that
    year. *)
Theorem sumOneOffs_of_the_year (params : Params) (yearIndex : nat) :
  let totals := sumOneOffs params yearIndex in
  0 <= oneOffInflows totals /\ 0 <= oneOffOutflows totals /\
  totals
  = sumOneOffs (Store.withOneOffs params (eventsOfYear params yearIndex))
      yearIndex /\
  (eventsOfYear params yearIndex = [] -> totals = mkOneOffTotals 0 0).
Proof.
  intros totals. subst totals. unfold sumOneOffs.
  cbn [Store.withOneOffs oneOffs].
  fold (eventsOfYear params yearIndex).
  cbn [oneOffInflows oneOffOutflows].
  split; [|split; [|split]].
  - apply fold_left_nonneg; [|lra].
    apply Forall_forall. intros e He.
    apply list_elem_of_In, filter_In in He as [_ He].
    apply gtq_true in He. lra.
  - apply fold_left_nonneg; [|lra].
    apply Forall_forall. intros e _. apply Qabs_nonneg.
  - unfold eventsOfYear at 3 4. rewrite filter_idemp. reflexivity.
  - intros ->. reflexivity.
Qed.

(** ** Blocks of the commitment schedule *)

(** A zero-filled array after [fillRange] on a range inside it. *)
Lemma fillRange_zeros_blocks (n lo len : nat) (v : Q) :
  (lo + len <= n)%nat ->
  fillRange (replicate n 0) (Z.of_nat lo) (Z.of_nat (lo + len)) v
  = replicate lo 0 ++ replicate len v ++ replicate (n - lo - len) 0.
Proof.
  intros Hn. apply list_eq. intros i.
  destruct (Nat.lt_ge_cases i n) as [Hi|Hi].
  - rewrite fillRange_zeros_lookup by exact Hi.
    destruct (Nat.lt_ge_cases i lo) as [H1|H1].
    + rewrite lookup_app_l by (rewrite length_replicate; exact H1).
      rewrite lookup_replicate_2 by exact H1.
      replace (Z.of_nat lo <=? Z.of_nat i)%Z with false
        by (symmetry; apply Z.leb_gt; lia).
      reflexivity.
    + rewrite lookup_app_r by (rewrite length_replicate; exact H1).
      rewrite length_replicate.
      replace (Z.of_nat lo <=? Z.of_nat i)%Z with true
        by (symmetry; apply Z.leb_le; lia).
      destruct (Nat.lt_ge_cases i (lo + len)) as [H2|H2].
      * rewrite lookup_app_l by (rewrite length_replicate; lia).
        rewrite lookup_replicate_2 by lia.
        replace (Z.of_nat i <? Z.of_nat (lo + len))%Z with true
          by (symmetry; apply Z.ltb_lt; lia).
        reflexivity.
      * rewrite lookup_app_r by (rewrite length_replicate; lia).
        rewrite length_replicate, lookup_replicate_2 by lia.
        replace (Z.of_nat i <? Z.of_nat (lo + len))%Z with false
          by (symmetry; apply Z.ltb_ge; lia).
        reflexivity.
  - rewrite !lookup_ge_None_2; [reflexivity| |].
    + rewrite !length_app, !length_replicate. lia.
    + rewrite fillRange_length, length_replicate. exact Hi.
Qed.

(** An enabled commitment with at least one call year: the calls are
    [callPerYear] in the first [effectiveCallYears] years and 0 after
    them; with the lag inside the horizon the distributions are 0 during
    the lag, [distPerYear] for [distributionYears] years and 0 after
    them; with the lag beyond the horizon nothing is ever distributed. *)
Theorem schedule_blocks (pc : PrivateCommitments) (years : nat) :
  enabled pc = true -> 0 < totalCommitment pc -> (1 <= callYears pc)%Z ->
  let s := generatePrivateSchedules pc years in
  let called := Z.to_nat (effectiveCallYears pc years) in
  let lag := Z.to_nat (distLagYears pc) in
  let paid := Z.to_nat (distributionYears pc years) in
  calls s
  = replicate called (callPerYear pc years)
    ++ replicate (S years - called) 0 /\
  ((0 <= distLagYears pc <= Z.of_nat years)%Z ->
   distributions s
   = replicate lag 0 ++ replicate paid (distPerYear pc years)
     ++ replicate (S years - lag - paid) 0) /\
  ((Z.of_nat years < distLagYears pc)%Z ->
   distributions s = replicate (S years) 0).
Proof.
  intros He Ht Hc s called lag paid. subst s called lag paid.
  rewrite generatePrivateSchedules_on by assumption.
  cbn [calls distributions].
  set (eff := effectiveCallYears pc years).
  assert (Heff : (1 <= eff <= Z.of_nat years + 1)%Z)
    by (subst eff; unfold effectiveCallYears; lia).
  split; [|split].
  - replace eff with (Z.of_nat (0 + Z.to_nat eff)) at 1 by lia.
    change 0%Z with (Z.of_nat 0).
    rewrite fillRange_zeros_blocks by lia.
    cbn [replicate app]. rewrite Nat.sub_0_r. reflexivity.
  - intros Hlag.
    set (dy := distributionYears pc years).
    assert (Hdy : (1 <= dy /\ distLagYears pc + dy <= Z.of_nat years + 1)%Z)
      by (subst dy; unfold distributionYears; lia).
    rewrite Z.min_l by lia.
    replace (distLagYears pc)
      with (Z.of_nat (Z.to_nat (distLagYears pc))) at 1 2 by lia.
    replace (Z.of_nat (Z.to_nat (distLagYears pc)) + dy)%Z
      with (Z.of_nat (Z.to_nat (distLagYears pc) + Z.to_nat dy)) by lia.
    rewrite fillRange_zeros_blocks by lia. reflexivity.
  - intros Hlag. apply list_eq. intros i.
    destruct (Nat.lt_ge_cases i (S years)) as [Hi|Hi].
    + rewrite fillRange_zeros_lookup by exact Hi.
      replace (distLagYears pc <=? Z.of_nat i)%Z with false
        by (symmetry; apply Z.leb_gt; lia).
      rewrite lookup_replicate_2 by exact Hi. reflexivity.
    + rewrite !lookup_ge_None_2; [reflexivity| |];
        rewrite ?fillRange_length, length_replicate; exact Hi.
Qed.

Lemma schedule_blocks_witness :
  let pc := mkPrivateCommitments true 2000000 4 2 4 2 in
  let s := generatePrivateSchedules pc 10 in
  let called := Z.to_nat (effectiveCallYears pc 10) in
  let lag := Z.to_nat (distLagYears pc) in
  let paid := Z.to_nat (distributionYears pc 10) in
  calls s
  = replicate called (callPerYear pc 10) ++ replicate (11 - called) 0 /\
  ((0 <= distLagYears pc <= Z.of_nat 10)%Z ->
   distributions s
   = replicate lag 0 ++ replicate paid (distPerYear pc 10)
     ++ replicate (11 - lag - paid) 0) /\
  ((Z.of_nat 10 < distLagYears pc)%Z ->
   distributions s = replicate 11 0).
Proof.
  apply (schedule_blocks (mkPrivateCommitments true 2000000 4 2 4 2) 10).
  - reflexivity.
  - reflexivity.
  - cbn. lia.
Defined.

(** ** Rows of the deterministic simulator *)

Section Rows.

Variable params : Params.
Variable allocation : Allocation.
Variables privateCalls privateDistributions : list Q.

Let step := simulateYear params allocation privateCalls privateDistributions.
Let loop := yearLoop params allocation privateCalls privateDistributions.

Lemma loop_S remaining yearIndex st :
  loop (S remaining) yearIndex st
  = if leq (wealth (fst (step yearIndex st))) 0
    then [fst (step yearIndex st)]
    else fst (step yearIndex st)
         :: loop remaining (S yearIndex) (snd (step yearIndex st)).
Proof. apply yearLoop_S. Qed.

Lemma yearLoop_age : forall remaining yearIndex st (i : nat) row,
  loop remaining yearIndex st !! i = Some row ->
  age row = (currentAge params + Z.of_nat (yearIndex + i))%Z.
Proof.
  induction remaining as [|k IH]; intros yearIndex st i row H.
  - discriminate H.
  - rewrite loop_S in H.
    assert (H0 : age (fst (step yearIndex st))
                 = (currentAge params + Z.of_nat yearIndex)%Z).
    { subst step. unfold simulateYear. reflexivity. }
    destruct (leq _ 0).
    + destruct i as [|i]; [|destruct i; discriminate H].
      injection H as <-. rewrite Nat.add_0_r. exact H0.
    + destruct i as [|i].
      * injection H as <-. rewrite Nat.add_0_r. exact H0.
      * change (loop k (S yearIndex) (snd (step yearIndex st)) !! i = Some row) in H.
        apply IH in H. rewrite H.
        f_equal. lia.
Qed.

Lemma yearLoop_wealthLedger : forall remaining yearIndex st,
  wealthLedger (stWealth st) (loop remaining yearIndex st).
Proof.
  induction remaining as [|k IH]; intros yearIndex st; [exact I|].
  rewrite loop_S.
  assert (H0 : wealth (fst (step yearIndex st))
               = stWealth st + inflows (fst (step yearIndex st))
                 + netReturn (fst (step yearIndex st))
                 - outflows (fst (step yearIndex st))).
  { subst step. unfold simulateYear. reflexivity. }
  assert (H1 : stWealth (snd (step yearIndex st))
               = wealth (fst (step yearIndex st))).
  { subst step. unfold simulateYear. reflexivity. }
  destruct (leq _ 0); cbn [wealthLedger]; (split; [exact H0|]).
  - exact I.
  - rewrite <- H1. apply IH.
Qed.

Lemma simulateYear_income yearIndex st :
  0 <= public allocation -> 0 <= private allocation -> 0 <= cash allocation ->
  0 <= publicDivYield params -> 0 <= cash (assetReturn params) ->
  0 <= publicRealizationRate params -> 0 <= privateRealizationRate params ->
  incomeNonNegative (fst (step yearIndex st)).
Proof.
  intros Ha Hv Hk Hd Hc Hrr Hpr. subst step.
  unfold simulateYear, incomeNonNegative.
  cbn [fst dividendIncome interestIncome publicRealizedGains
       publicUnrealizedGains privateRealizedGains privateUnrealizedGains].
  set (B := Qmax 0 (stWealth st - _ + _)).
  assert (HB : 0 <= B) by apply Q.le_max_l.
  clearbody B.
  assert (Hpub : 0 <= B * public allocation)
    by (apply scale_nonneg; assumption).
  assert (Hcash : 0 <= B * cash allocation)
    by (apply scale_nonneg; assumption).
  assert (Hpriv : 0 <= B * private allocation)
    by (apply scale_nonneg; assumption).
  assert (Hreal : 0 <= publicRealizationRate params *
                       Qmax 0 (public (assetReturn params)
                               - publicDivYield params))
    by (apply scale_nonneg; [exact Hrr|apply Q.le_max_l]).
  assert (Hpreal : 0 <= privateRealizationRate params *
                        Qmax 0 (private (assetReturn params)))
    by (apply scale_nonneg; [exact Hpr|apply Q.le_max_l]).
  repeat split; apply scale_nonneg;
    try assumption; apply Q.le_max_l.
Qed.

End Rows.

Lemma simulateDeterministic_rows_nonempty (input : Params) :
  rows (simulateDeterministic input) <> [].
Proof.
  rewrite simulateDeterministic_rows, yearLoop_S.
  destruct (leq _ 0); discriminate.
Qed.

(** Row [i] is the row of year [i] and of age [currentAge + i]; when the
    run is not ruined and [deathAge] is above [currentAge], the last row
    is the row of [deathAge]. *)
Theorem rows_are_indexed_by_year (input : Params) :
  let result := simulateDeterministic input in
  (forall (i : nat) row,
     rows result !! i = Some row ->
     row_year row = Z.of_nat i /\
     age row = (currentAge input + Z.of_nat i)%Z) /\
  (brokeYear result = (-1)%Z -> (currentAge input < deathAge input)%Z ->
   exists row, last (rows result) = Some row /\ age row = deathAge input).
Proof.
  intros result. subst result. split.
  - intros i row H. rewrite simulateDeterministic_rows in H. split.
    + apply yearLoop_row_year in H. exact H.
    + apply yearLoop_age in H. exact H.
  - intros Hb Hage.
    rewrite simulateDeterministic_brokeYear in Hb.
    assert (Hlen : length (rows (simulateDeterministic input))
                   = S (horizon input)).
    { rewrite simulateDeterministic_rows in *.
      destruct (yearLoop_shape input (normalizeAllocation (assetAlloc input))
                  (calls (generatePrivateSchedules (privCommit input)
                            (horizon input)))
                  (distributions (generatePrivateSchedules (privCommit input)
                                    (horizon input)))
                  (S (horizon input)) 0%nat
                  (mkYearState (startWealth input)
                     (startWealth input * clamp (liquidShare input) 0 1)
                     (annualExpenseNow input)))
        as [[_ Hlen]|(pre & final & Heq & Hpre & Hfin & _)]; [exact Hlen|].
      rewrite Heq in Hb. unfold findIndex in Hb.
      rewrite findIndexFrom_first in Hb;
        [lia|apply positiveWealth_leq, Hpre|apply leq_true, Hfin]. }
    rewrite last_lookup, Hlen. cbn [pred].
    destruct (rows (simulateDeterministic input) !! horizon input)
      as [row|] eqn:E.
    + exists row. split; [reflexivity|].
      rewrite simulateDeterministic_rows in E.
      apply yearLoop_age in E. rewrite E. unfold horizon. lia.
    + apply lookup_ge_None in E. lia.
Qed.

(** The rows keep the balance: each row's wealth is the wealth of the
    row before it (or [startWealth]) plus its inflows and net return,
    less its outflows. *)
Theorem rows_keep_wealth_ledger (input : Params) :
  wealthLedger (startWealth input) (rows (simulateDeterministic input)).
Proof.
  rewrite simulateDeterministic_rows.
  apply (yearLoop_wealthLedger input (normalizeAllocation (assetAlloc input))
           _ _ (S (horizon input)) 0%nat
           (mkYearState (startWealth input)
              (startWealth input * clamp (liquidShare input) 0 1)
              (annualExpenseNow input))).
Qed.

(** With weights, dividend yield, cash return and realization rates that
    are not negative, no income component of any row is negative. *)
Theorem income_components_nonneg (input : Params) :
  0 <= public (assetAlloc input) -> 0 <= private (assetAlloc input) ->
  0 <= cash (assetAlloc input) ->
  0 <= publicDivYield input -> 0 <= cash (assetReturn input) ->
  0 <= publicRealizationRate input -> 0 <= privateRealizationRate input ->
  Forall incomeNonNegative (rows (simulateDeterministic input)).
Proof.
  intros Ha Hv Hk Hd Hc Hrr Hpr. rewrite simulateDeterministic_rows.
  destruct (normalizeAllocation_nonneg (assetAlloc input) Ha Hv Hk)
    as (Na & Nv & Nk).
  apply yearLoop_Forall. intros yearIndex st.
  apply simulateYear_income; assumption.
Qed.

Lemma income_components_nonneg_witness :
  Forall incomeNonNegative (rows (simulateDeterministic sampleParams)).
Proof.
  apply (income_components_nonneg sampleParams); cbn; lra.
Defined.

(** ** Padding of the trajectories *)

Lemma padLoop_app (n : nat) : forall trajectory,
  padLoop n trajectory
  = trajectory ++ replicate n (default 0 (last trajectory)).
Proof.
  induction n as [|k IH]; intros t; cbn [padLoop replicate].
  - rewrite app_nil_r. reflexivity.
  - rewrite IH, last_snoc. cbn [default]. rewrite <- app_assoc. reflexivity.
Qed.

Lemma existsb_replicate {A : Type} (f : A -> bool) (n : nat) (x : A) :
  f x = false -> existsb f (replicate n x) = false.
Proof.
  intros H. induction n as [|k IH]; cbn; [reflexivity|].
  rewrite H, IH. reflexivity.
Qed.

Lemma existsb_last {A : Type} (f : A -> bool) (l : list A) (x : A) :
  last l = Some x -> f x = true -> existsb f l = true.
Proof.
  intros Hl Hx. apply existsb_exists. exists x. split; [|exact Hx].
  apply list_elem_of_In. rewrite last_lookup in Hl.
  apply list_elem_of_lookup. eauto.
Qed.

Lemma padTrajectory_length (trajectory : list Q) (years : nat) :
  length (padTrajectory trajectory years)
  = Nat.max (length trajectory) (S years).
Proof.
  unfold padTrajectory. rewrite padLoop_app, length_app, length_replicate.
  lia.
Qed.

Lemma padTrajectory_hasNonPositive (trajectory : list Q) (years : nat) :
  trajectory <> [] ->
  hasNonPositive (padTrajectory trajectory years) = hasNonPositive trajectory.
Proof.
  intros Hne. unfold padTrajectory, hasNonPositive.
  rewrite padLoop_app, existsb_app.
  destruct (last trajectory) as [x|] eqn:El.
  - cbn [default]. destruct (leq x 0) eqn:Ex.
    + rewrite (existsb_last _ _ _ El Ex). reflexivity.
    + rewrite existsb_replicate by exact Ex. apply orb_false_r.
  - apply last_None in El. contradiction.
Qed.

(** Padding brings a trajectory to [years + 1] values (a longer one is
    left alone), keeps the values it had, and, on a trajectory that is
    not empty, adds no value [<= 0] where there was none: it repeats the
    last value. *)
Theorem padTrajectory_repeats_last (trajectory : list Q) (years : nat) :
  length (padTrajectory trajectory years)
  = Nat.max (length trajectory) (S years) /\
  (forall (i : nat) w,
     trajectory !! i = Some w ->
     padTrajectory trajectory years !! i = Some w) /\
  (forall (i : nat) w,
     (length trajectory <= i)%nat ->
     padTrajectory trajectory years !! i = Some w ->
     w = default 0 (last trajectory)) /\
  (trajectory <> [] ->
   hasNonPositive (padTrajectory trajectory years)
   = hasNonPositive trajectory).
Proof.
  split; [apply padTrajectory_length|].
  split; [|split; [|apply padTrajectory_hasNonPositive]].
  - intros i w H. unfold padTrajectory. rewrite padLoop_app.
    rewrite lookup_app_l by (eapply lookup_lt_Some; exact H). exact H.
  - intros i w Hi H. unfold padTrajectory in H. rewrite padLoop_app in H.
    rewrite lookup_app_r in H by exact Hi.
    apply lookup_replicate in H as [-> _]. reflexivity.
Qed.

Lemma existsb_map_wealth (l : list SimulationRow) :
  existsb (fun w => leq w 0) (map wealth l)
  = existsb (fun row => leq (wealth row) 0) l.
Proof.
  induction l as [|r t IH]; cbn; [reflexivity|]. rewrite IH. reflexivity.
Qed.

(** A Monte Carlo path counts as ruined exactly when its deterministic
    run reports a [brokeYear]. *)
Theorem padded_path_ruined_iff_broke (input : Params) (years : nat) :
  touchesZero
    (padTrajectory (map wealth (rows (simulateDeterministic input))) years)
  = negb (brokeYear (simulateDeterministic input) =? -1)%Z.
Proof.
  rewrite touchesZero_hasNonPositive.
  rewrite padTrajectory_hasNonPositive.
  - unfold hasNonPositive. rewrite existsb_map_wealth.
    rewrite simulateDeterministic_brokeYear. unfold findIndex.
    symmetry. apply findIndexFrom_existsb. lia.
  - intros E. apply map_eq_nil in E.
    exact (simulateDeterministic_rows_nonempty input E).
Qed.

Lemma simulateDeterministic_rows_length (input : Params) :
  (length (rows (simulateDeterministic input)) <= S (horizon input))%nat.
Proof.
  rewrite simulateDeterministic_rows.
  destruct (yearLoop_shape input (normalizeAllocation (assetAlloc input))
              (calls (generatePrivateSchedules (privCommit input)
                        (horizon input)))
              (distributions (generatePrivateSchedules (privCommit input)
                                (horizon input)))
              (S (horizon input)) 0%nat
              (mkYearState (startWealth input)
                 (startWealth input * clamp (liquidShare input) 0 1)
                 (annualExpenseNow input)))
    as [[_ Hlen]|(pre & final & Heq & _ & _ & Hlen)].
  - rewrite Hlen. lia.
  - rewrite Heq, length_app. cbn [length]. lia.
Qed.

Lemma pathLoop_lengths boxMuller params allocation :
  forall remaining pathIdx,
    Forall (fun trajectory => length trajectory = S (horizon params))
      (pathLoop boxMuller params allocation (horizon params)
         remaining pathIdx).
Proof.
  induction remaining as [|k IH]; intros pathIdx; cbn [pathLoop];
    constructor; [|apply IH].
  rewrite padTrajectory_length, length_map.
  match goal with
  | |- Nat.max (length (rows (simulateDeterministic ?q))) _ = _ =>
      pose proof (simulateDeterministic_rows_length q) as Hle;
      change (horizon q) with (horizon params) in Hle
  end.
  lia.
Qed.

(** Every Monte Carlo path has [years + 1] values, ruined or not, and so
    has every percentile band; no band value is negative. *)
Theorem monteCarlo_shapes (boxMuller : nat -> Q) (params : Params) :
  let result := simulateMonteCarlo boxMuller params in
  let n := S (horizon params) in
  Forall (fun trajectory => length trajectory = n) (paths result) /\
  (length (band5 (bands result)) = n /\ length (band25 (bands result)) = n /\
   length (band50 (bands result)) = n /\ length (band75 (bands result)) = n /\
   length (band95 (bands result)) = n) /\
  Forall (fun b => Forall (Qle 0) b)
    [band5 (bands result); band25 (bands result); band50 (bands result);
     band75 (bands result); band95 (bands result)].
Proof.
  intros result n. subst result n. unfold simulateMonteCarlo.
  cbn [paths bands band5 band25 band50 band75 band95].
  split; [apply pathLoop_lengths|]. split.
  - rewrite !length_map, !length_seq. repeat split; reflexivity.
  - assert (H : forall k (l : list nat),
                Forall (Qle 0)
                  (map (bandValue
                          (pathLoop boxMuller params
                             (normalizeAllocation (assetAlloc params))
                             (horizon params)
                             (Z.to_nat
                                (Z.min (numPaths params)
                                   MAX_MONTE_CARLO_PATHS)) 0) k) l)).
    { intros k l. apply Forall_map, Forall_forall. intros y _.
      apply Qmax_nonneg_l. }
    repeat (apply Forall_cons; split; [apply H|]). constructor.
Qed.

(** ** Sorting and percentiles *)

Lemma insertSorted_perm (x : Q) (l : list Q) : insertSorted x l ≡ₚ x :: l.
Proof.
  induction l as [|y t IH]; cbn [insertSorted]; [reflexivity|].
  destruct (ltq x y); [reflexivity|].
  rewrite IH. apply Permutation_swap.
Qed.

Lemma insertSorted_sorted (x : Q) (l : list Q) :
  StronglySorted Qle l -> StronglySorted Qle (insertSorted x l).
Proof.
  induction 1 as [|y t Ht IH Hy]; cbn [insertSorted].
  - repeat constructor.
  - destruct (ltq x y) eqn:E.
    + apply ltq_true in E. constructor; [constructor; assumption|].
      constructor; [lra|].
      eapply Forall_impl; [exact Hy|]. intros z Hz. cbn in Hz. lra.
    + apply ltq_false in E. constructor; [exact IH|].
      rewrite insertSorted_perm. constructor; assumption.
Qed.

Lemma sortNumbers_from (values : list Q) : forall acc,
  StronglySorted Qle acc ->
  StronglySorted Qle (fold_left (fun acc x => insertSorted x acc) values acc) /\
  fold_left (fun acc x => insertSorted x acc) values acc ≡ₚ values ++ acc.
Proof.
  induction values as [|x t IH]; intros acc Hacc; cbn [fold_left app].
  - split; [exact Hacc|reflexivity].
  - destruct (IH (insertSorted x acc) (insertSorted_sorted x acc Hacc))
      as [Hs Hp].
    split; [exact Hs|].
    rewrite Hp, insertSorted_perm. symmetry. apply Permutation_middle.
Qed.

(** The sort behind the percentiles returns its input in ascending
    order: nothing is lost, added or left out of place. *)
Theorem sortNumbers_sorts (values : list Q) :
  StronglySorted Qle (sortNumbers values) /\ sortNumbers values ≡ₚ values.
Proof.
  destruct (sortNumbers_from values [] (SSorted_nil Qle)) as [Hs Hp].
  split; [exact Hs|]. unfold sortNumbers. rewrite Hp, app_nil_r. reflexivity.
Qed.

Lemma StronglySorted_lookup (l : list Q) :
  StronglySorted Qle l ->
  forall (i j : nat) a b,
    (i <= j)%nat -> l !! i = Some a -> l !! j = Some b -> a <= b.
Proof.
  induction 1 as [|x t Ht IH Hx]; intros i j a b Hij Ha Hb.
  - discriminate Ha.
  - destruct i as [|i]; destruct j as [|j]; cbn in Ha, Hb.
    + injection Ha as <-. injection Hb as <-. lra.
    + injection Ha as <-.
      exact (proj1 (Forall_lookup _ _) Hx j b Hb).
    + lia.
    + apply (IH i j); [lia|assumption|assumption].
Qed.

Lemma arrayGet_nil {A : Type} (i : Z) : arrayGet (@nil A) i = None.
Proof. unfold arrayGet. destruct (0 <=? i)%Z; reflexivity. Qed.

Lemma percentileAt_unfold (values : list Q) (q : Q) :
  percentileAt values q
  = let sorted := sortNumbers values in
    let len := Z.of_nat (length sorted) in
    match arrayGet sorted (Qfloor (q / 100 * (inject_Z len - 1))) with
    | Some v => v
    | None => default 0 (arrayGet sorted (len - 1))
    end.
Proof. reflexivity. Qed.

Lemma percentile_index (n : nat) (q : Q) :
  (0 < n)%nat -> 0 <= q <= 100 ->
  (0 <= Qfloor (q / 100 * (inject_Z (Z.of_nat n) - 1)) <= Z.of_nat n - 1)%Z.
Proof.
  intros Hn Hq.
  assert (Hm : inject_Z (Z.of_nat n) - 1 == inject_Z (Z.of_nat n - 1)).
  { unfold Z.sub. rewrite inject_Z_plus. reflexivity. }
  assert (H0 : 0 <= inject_Z (Z.of_nat n - 1)).
  { change 0 with (inject_Z 0). rewrite <- Zle_Qle. lia. }
  set (m := inject_Z (Z.of_nat n - 1)) in *.
  assert (Hx : 0 <= q / 100 * m <= m).
  { assert (Hq' : 0 <= q / 100 <= 1).
    { split; [apply Qle_shift_div_l|apply Qle_shift_div_r]; lra. }
    split; nra. }
  split.
  - change 0%Z with (Qfloor 0). apply Qfloor_resp_le. rewrite Hm. lra.
  - rewrite <- (Qfloor_Z (Z.of_nat n - 1)). apply Qfloor_resp_le.
    rewrite Hm. fold m. lra.
Qed.

Lemma percentileAt_mono (values : list Q) (q1 q2 : Q) :
  0 <= q1 -> q1 <= q2 -> q2 <= 100 ->
  percentileAt values q1 <= percentileAt values q2 /\
  (values = [] -> percentileAt values q1 = 0) /\
  (values <> [] -> In (percentileAt values q1) values).
Proof.
  intros H1 H12 H2.
  destruct (sortNumbers_from values [] (SSorted_nil Qle)) as [Hs Hp].
  rewrite app_nil_r in Hp. fold (sortNumbers values) in Hs, Hp.
  rewrite !percentileAt_unfold. cbn zeta.
  set (sorted := sortNumbers values) in *.
  destruct values as [|v0 values'] eqn:Ev.
  - assert (E : sorted = []) by (apply Permutation_nil_r; exact Hp).
    rewrite E. rewrite !arrayGet_nil. cbn [default].
    split; [lra|split; [reflexivity|intros H; contradiction]].
  - rewrite <- Ev in *.
    assert (Hlen : (0 < length sorted)%nat).
    { rewrite (Permutation_length Hp), Ev. cbn. lia. }
    pose proof (percentile_index (length sorted) q1 Hlen ltac:(lra)) as Hi1.
    pose proof (percentile_index (length sorted) q2 Hlen ltac:(lra)) as Hi2.
    assert (Hmono : (Qfloor (q1 / 100 * (inject_Z (Z.of_nat (length sorted)) - 1))
                     <= Qfloor (q2 / 100 *
                                (inject_Z (Z.of_nat (length sorted)) - 1)))%Z).
    { apply Qfloor_resp_le.
      assert (Hm : 0 <= inject_Z (Z.of_nat (length sorted)) - 1).
      { assert (Hz : inject_Z 1 <= inject_Z (Z.of_nat (length sorted)))
          by (rewrite <- Zle_Qle; lia).
        change (inject_Z 1) with 1 in Hz. lra. }
      assert (Hq : q1 / 100 <= q2 / 100).
      { unfold Qdiv. apply Qmult_le_compat_r; [exact H12|discriminate]. }
      nra. }
    set (i1 := Qfloor (q1 / 100 * _)) in *.
    set (i2 := Qfloor (q2 / 100 * _)) in *.
    unfold arrayGet.
    replace (0 <=? i1)%Z with true by (symmetry; apply Z.leb_le; lia).
    replace (0 <=? i2)%Z with true by (symmetry; apply Z.leb_le; lia).
    destruct (sorted !! Z.to_nat i1) as [a|] eqn:Ea;
      [|apply lookup_ge_None in Ea; lia].
    destruct (sorted !! Z.to_nat i2) as [b|] eqn:Eb;
      [|apply lookup_ge_None in Eb; lia].
    split; [|split].
    + apply (StronglySorted_lookup sorted Hs (Z.to_nat i1) (Z.to_nat i2));
        [lia|assumption|assumption].
    + intros E. rewrite E in Ev. discriminate Ev.
    + intros _. apply list_elem_of_In. rewrite <- Hp.
      apply list_elem_of_lookup. eauto.
Qed.

(** A percentile of an empty list of values is 0; otherwise it is one of
    the values, and a higher quantile never gives a lower value. *)
Theorem percentiles_are_monotone (values : list Q) (q1 q2 : Q) :
  0 <= q1 -> q1 <= q2 -> q2 <= 100 ->
  percentileAt values q1 <= percentileAt values q2 /\
  (values = [] -> percentileAt values q1 = 0) /\
  (values <> [] -> In (percentileAt values q1) values).
Proof. apply percentileAt_mono. Qed.

Lemma percentiles_are_monotone_witness :
  percentileAt [3; 1; 2] 5 <= percentileAt [3; 1; 2] 95 /\
  ([3; 1; 2] = [] -> percentileAt [3; 1; 2] 5 = 0) /\
  ([3; 1; 2] <> [] -> In (percentileAt [3; 1; 2] 5) [3; 1; 2]).
Proof.
  apply (percentiles_are_monotone [3; 1; 2] 5 95); lra.
Defined.

Lemma bandValue_percentile (l : list (list Q)) (yearIdx : nat) :
  let values := map (fun trajectory => default 0 (trajectory !! yearIdx)) l in
  bandValue l 0 yearIdx = Qmax 0 (percentileAt values 5) /\
  bandValue l 1 yearIdx = Qmax 0 (percentileAt values 25) /\
  bandValue l 2 yearIdx = Qmax 0 (percentileAt values 50) /\
  bandValue l 3 yearIdx = Qmax 0 (percentileAt values 75) /\
  bandValue l 4 yearIdx = Qmax 0 (percentileAt values 95).
Proof. repeat split; reflexivity. Qed.

(** The percentile bands never cross: in every year the 5th percentile
    is at most the 25th, which is at most the median, and so on up to
    the 95th. *)
Theorem bands_never_cross (boxMuller : nat -> Q) (params : Params) (i : nat) :
  bandsOrderedAt (bands (simulateMonteCarlo boxMuller params)) i.
Proof.
  unfold bandsOrderedAt, simulateMonteCarlo.
  cbn [bands band5 band25 band50 band75 band95].
  set (l := pathLoop _ _ _ _ _ _).
  rewrite !list_lookup_fmap.
  destruct (seq 0 (S (horizon params)) !! i) as [y|]; cbn [fmap option_fmap option_map];
    [|exact I].
  destruct (bandValue_percentile l y) as (-> & -> & -> & -> & ->).
  set (values := map _ l).
  repeat split; apply Q.max_le_compat_l;
    apply percentileAt_mono; lra.
Qed.

(** ** The one-off events in the store *)

Lemma filter_keep_all {A : Type} (f : A -> bool) (l : list A) :
  Forall (fun x => f x = true) l -> List.filter f l = l.
Proof.
  induction 1 as [|x t Hx _ IH]; cbn; [reflexivity|].
  rewrite Hx, IH. reflexivity.
Qed.

(** Removing an id leaves no event with that id and keeps the other
    events in their order; removing an id that no event has changes
    nothing. *)
Theorem removeOneOff_removes_only_id (target : string) (params : Params) :
  let events := oneOffs (removeOneOff target params) in
  Forall (fun event => id event <> target) events /\
  (forall event,
     id event <> target ->
     (In event events <-> In event (oneOffs params))) /\
  sublist events (oneOffs params) /\
  (Forall (fun event => id event <> target) (oneOffs params) ->
   removeOneOff target params = withOneOffs params (oneOffs params)).
Proof.
  intros events. subst events. unfold removeOneOff.
  cbn [withOneOffs oneOffs].
  split; [|split; [|split]].
  - apply Forall_forall. intros e He.
    apply list_elem_of_In, filter_In in He as [_ He].
    apply negb_true_iff, String.eqb_neq in He. exact He.
  - intros e He. rewrite filter_In. split; [tauto|].
    intros Hin. split; [exact Hin|].
    apply negb_true_iff, String.eqb_neq. exact He.
  - induction (oneOffs params) as [|e t IH]; cbn; [constructor|].
    destruct (negb _); [apply sublist_skip|apply sublist_cons]; exact IH.
  - intros Hall. f_equal. apply filter_keep_all.
    eapply Forall_impl; [exact Hall|]. intros e He. cbn in He.
    apply negb_true_iff, String.eqb_neq. exact He.
Qed.

(** Adding an event and removing it again by its id gives the events
    back, provided the id was fresh. *)
Theorem add_then_remove_restores (newId : string) (sign : Sign) (params : Params) :
  Forall (fun event => id event <> newId) (oneOffs params) ->
  oneOffs (removeOneOff newId (addOneOff newId sign params)) = oneOffs params.
Proof.
  intros Hfresh. unfold removeOneOff, addOneOff.
  cbn [withOneOffs oneOffs]. rewrite List.filter_app.
  cbn [List.filter id]. rewrite String.eqb_refl. cbn [negb].
  rewrite app_nil_r. apply filter_keep_all.
  eapply Forall_impl; [exact Hfresh|]. intros e He. cbn in He.
  apply negb_true_iff, String.eqb_neq. exact He.
Qed.

Lemma add_then_remove_restores_witness :
  oneOffs (removeOneOff "c" (addOneOff "c" Plus eventParams))
  = oneOffs eventParams.
Proof.
  apply (add_then_remove_restores "c" Plus eventParams).
  repeat constructor; discriminate.
Defined.

(** A new event is dated year 0 and worth 10,000: it raises the one-off
    inflows (sign 1) or outflows (sign -1) of year 0 by 10,000 and
    leaves every other year alone. *)
Theorem addOneOff_counts_in_year_0 (newId : string) (sign : Sign) (params : Params) :
  let before := sumOneOffs params 0 in
  let after := sumOneOffs (addOneOff newId sign params) 0 in
  (sign = Plus ->
   oneOffInflows after == oneOffInflows before + 10000 /\
   oneOffOutflows after = oneOffOutflows before) /\
  (sign = Minus ->
   oneOffInflows after = oneOffInflows before /\
   oneOffOutflows after == oneOffOutflows before + 10000) /\
  forall yearIndex : nat,
    yearIndex <> 0%nat ->
    sumOneOffs (addOneOff newId sign params) yearIndex
    = sumOneOffs params yearIndex.
Proof.
  intros before after. subst before after.
  unfold sumOneOffs, addOneOff. cbn [withOneOffs oneOffs].
  rewrite !List.filter_app. cbn [List.filter year].
  split; [|split].
  - intros ->. change (0 =? Z.of_nat 0)%Z with true. cbn iota.
    rewrite ?List.filter_app. cbn [List.filter amount signValue].
    change (gtq (1 * 10000) 0) with true.
    change (ltq (1 * 10000) 0) with false. cbn iota.
    rewrite app_nil_r, fold_left_app. cbn [fold_left oneOffInflows
      oneOffOutflows amount].
    split; [ring|reflexivity].
  - intros ->. change (0 =? Z.of_nat 0)%Z with true. cbn iota.
    rewrite ?List.filter_app. cbn [List.filter amount signValue].
    change (gtq (-1 * 10000) 0) with false.
    change (ltq (-1 * 10000) 0) with true. cbn iota.
    rewrite app_nil_r, fold_left_app. cbn [fold_left oneOffInflows
      oneOffOutflows amount].
    split; [reflexivity|].
    change (Qabs (-1 * 10000)) with (10000 # 1). reflexivity.
  - intros yearIndex Hy. rewrite !List.filter_app. cbn [List.filter year].
    replace (0 =? Z.of_nat yearIndex)%Z with false
      by (symmetry; apply Z.eqb_neq; lia).
    cbn iota. cbn [List.filter]. rewrite !app_nil_r. reflexivity.
Qed.


(** ** Tax setup from the residences *)

Lemma countryEqb_eq (a b : TaxResidenceCountry) :
  countryEqb a b = true <-> a = b.
Proof. destruct a, b; cbn; split; intros H; congruence. Qed.

Lemma includes_In (l : list TaxResidenceCountry) (c : TaxResidenceCountry) :
  includes l c = true <-> In c l.
Proof.
  unfold includes. rewrite existsb_exists. split.
  - intros (x & Hx & E). apply countryEqb_eq in E. subst x. exact Hx.
  - intros H. exists c. split; [exact H|]. apply countryEqb_eq. reflexivity.
Qed.

Lemma uniqueFrom_In (residences : list TaxResidenceCountry) :
  forall seen c,
    In c (uniqueFrom seen residences) <-> In c residences /\ ~ In c seen.
Proof.
  induction residences as [|x t IH]; intros seen c; cbn [uniqueFrom].
  - cbn. tauto.
  - destruct (includes seen x) eqn:E.
    + apply includes_In in E. rewrite IH. cbn [In]. split.
      * intros [H1 H2]. tauto.
      * intros [[->|H1] H2]; [contradiction|tauto].
    + assert (Hx : ~ In x seen).
      { intros H. apply includes_In in H. congruence. }
      cbn [In]. rewrite IH, in_app_iff. cbn [In].
      destruct (countryEqb x c) eqn:Exc.
      * apply countryEqb_eq in Exc. subst c. tauto.
      * assert (x <> c) by (intros ->; destruct c; discriminate Exc). tauto.
Qed.

Lemma uniqueFrom_NoDup (residences : list TaxResidenceCountry) :
  forall seen, NoDup (uniqueFrom seen residences).
Proof.
  induction residences as [|x t IH]; intros seen; cbn [uniqueFrom].
  - constructor.
  - destruct (includes seen x); [apply IH|].
    apply NoDup_cons. split; [|apply IH].
    rewrite list_elem_of_In, uniqueFrom_In, in_app_iff. cbn. tauto.
Qed.

Lemma uniqueResidences_In residences c :
  In c (uniqueResidences residences) <-> In c residences.
Proof. unfold uniqueResidences. rewrite uniqueFrom_In. cbn. tauto. Qed.

Lemma uniqueResidences_single residences :
  (includes (uniqueResidences residences) ResUS
   && (length (uniqueResidences residences) =? 1)%nat = true)
  <-> onlyUS residences.
Proof.
  rewrite andb_true_iff, includes_In, uniqueResidences_In, Nat.eqb_eq.
  unfold onlyUS. split.
  - intros [Hus Hlen]. split; [intros ->; contradiction|].
    apply Forall_forall. intros c Hc.
    apply list_elem_of_In, uniqueResidences_In in Hc.
    apply uniqueResidences_In in Hus.
    destruct (uniqueResidences residences) as [|x [|y t]]; try discriminate.
    cbn in Hus, Hc. destruct Hus as [<-|[]]. destruct Hc as [<-|[]].
    reflexivity.
  - intros [Hne Hall].
    assert (Hus : In ResUS residences).
    { destruct residences as [|x t]; [contradiction|].
      apply Forall_inv in Hall. subst x. left. reflexivity. }
    split; [exact Hus|].
    pose proof (uniqueFrom_NoDup residences []) as Hnd.
    fold (uniqueResidences residences) in Hnd.
    assert (Hu : forall c, In c (uniqueResidences residences) -> c = ResUS).
    { intros c Hc. apply (proj1 (uniqueResidences_In _ _)) in Hc.
      apply (proj1 (Forall_forall _ _) Hall). apply list_elem_of_In. exact Hc. }
    apply (proj2 (uniqueResidences_In _ _)) in Hus.
    destruct (uniqueResidences residences) as [|x [|y t]].
    + contradiction.
    + reflexivity.
    + exfalso. apply NoDup_cons in Hnd as [Hx _]. apply Hx.
      rewrite (Hu x), (Hu y) by (cbn; tauto). left.
Qed.

(** The jurisdiction follows the set of residences, whatever their order
    and repetitions: Germany together with the U.S. gives the combined
    jurisdiction, Germany without the U.S. the German one, the U.S. the
    U.S. one only when it is the sole residence, and anything else the
    custom rates. *)
Theorem jurisdiction_follows_residences
    (residences : list TaxResidenceCountry)
    (weights : option (TaxResidenceCountry -> option Q))
    (relief : option Q) :
  let j :=
    setupJurisdiction (deriveTaxSetupFromResidences residences weights relief) in
  (j = GermanyUS <-> In ResGermany residences /\ In ResUS residences) /\
  (j = Germany <-> In ResGermany residences /\ ~ In ResUS residences) /\
  (j = US <-> onlyUS residences) /\
  (j = Custom <-> ~ In ResGermany residences /\ ~ onlyUS residences).
Proof.
  intros j. subst j. unfold deriveTaxSetupFromResidences.
  cbn [setupJurisdiction].
  pose proof (includes_In (uniqueResidences residences) ResGermany) as Hg.
  pose proof (includes_In (uniqueResidences residences) ResUS) as Hu.
  pose proof (uniqueResidences_single residences) as Hs.
  rewrite uniqueResidences_In in Hg, Hu.
  assert (Honly : onlyUS residences -> ~ In ResGermany residences).
  { intros [_ Hall] Hin.
    apply list_elem_of_In in Hin.
    apply (proj1 (Forall_forall _ _) Hall) in Hin. discriminate Hin. }
  set (O := onlyUS residences) in *. clearbody O.
  destruct (includes (uniqueResidences residences) ResGermany);
    destruct (includes (uniqueResidences residences) ResUS);
    destruct (length (uniqueResidences residences) =? 1)%nat;
    cbn [andb] in *;
    assert (Ht : true = true) by reflexivity;
    assert (Hf : ~ false = true) by discriminate;
    repeat split; intros; try discriminate; tauto.
Qed.

Lemma fold_left_sumQ {A : Type} (f : A -> Q) (l : list A) :
  fold_left (fun acc curr => acc + f curr) l 0 == sumQ (map f l).
Proof.
  induction l as [|x t IH]; cbn [fold_left map sumQ fold_right];
    [reflexivity|].
  rewrite fold_left_shift, IH. unfold sumQ. ring.
Qed.

Lemma sumQ_map_div (l : list Q) (s : Q) :
  sumQ (map (fun w => w / s) l) == sumQ l / s.
Proof.
  unfold sumQ. induction l as [|x t IH]; cbn [map fold_right].
  - unfold Qdiv. ring.
  - rewrite IH. unfold Qdiv. ring.
Qed.

Lemma sumQ_map_const {A : Type} (l : list A) (c : Q) :
  sumQ (map (fun _ => c) l) == inject_Z (Z.of_nat (length l)) * c.
Proof.
  unfold sumQ. induction l as [|x t IH]; cbn [map fold_right length].
  - cbn. ring.
  - rewrite IH, Nat2Z.inj_succ, <- Z.add_1_r, inject_Z_plus. ring.
Qed.

Lemma inject_nat_ge_1 (n : nat) : (0 < n)%nat -> 1 <= inject_Z (Z.of_nat n).
Proof. intros H. change 1 with (inject_Z 1). rewrite <- Zle_Qle. lia. Qed.

Section Weights.

Variable A : Type.
Variable selected : list A.
Variable weightOf : A -> Q.

Let baseWeights := map (fun d => Qmax 0 (weightOf d)) selected.
Let weightSum := fold_left (fun sum w => sum + w) baseWeights 0.
Let normalizedWeights :=
  if gtq weightSum 0 then map (fun w => w / weightSum) baseWeights
  else
    map (fun _ => 1 / Qmax 1 (inject_Z (Z.of_nat (length selected))))
      selected.

Lemma weightSum_sumQ : weightSum == sumQ baseWeights.
Proof.
  subst weightSum.
  pose proof (fold_left_sumQ (fun w : Q => w) baseWeights) as H.
  rewrite map_id in H. exact H.
Qed.

Lemma normalizedWeights_length : length normalizedWeights = length selected.
Proof.
  subst normalizedWeights baseWeights.
  destruct (gtq weightSum 0); rewrite !length_map; reflexivity.
Qed.

Lemma normalizedWeights_nonneg : Forall (Qle 0) normalizedWeights.
Proof.
  subst normalizedWeights.
  destruct (gtq weightSum 0) eqn:E.
  - apply gtq_true in E. subst baseWeights.
    rewrite map_map. apply Forall_map, Forall_forall. intros d _. cbn.
    apply Qle_shift_div_l; [exact E|].
    rewrite Qmult_0_l. apply Q.le_max_l.
  - apply Forall_map, Forall_forall. intros d _. cbn.
    apply Qle_shift_div_l.
    + apply Qlt_le_trans with 1; [reflexivity|apply Q.le_max_l].
    + lra.
Qed.

Lemma normalizedWeights_total :
  selected <> [] -> sumQ normalizedWeights == 1.
Proof.
  intros Hne. subst normalizedWeights.
  destruct (gtq weightSum 0) eqn:E.
  - apply gtq_true in E. rewrite sumQ_map_div, <- weightSum_sumQ.
    field. lra.
  - rewrite sumQ_map_const.
    assert (Hn : 1 <= inject_Z (Z.of_nat (length selected))).
    { apply inject_nat_ge_1. destruct selected; [contradiction|cbn; lia]. }
    rewrite Q.max_r by exact Hn. field. lra.
Qed.

End Weights.

Lemma reduceIndexed_bounds {A : Type} (g : A -> Q) (nw : list Q) (lo hi : Q) :
  Forall (Qle 0) nw ->
  forall (defs : list A) (k : nat) (acc : Q),
    Forall (fun d => lo <= g d <= hi) defs ->
    let W := sumQ (take (length defs) (drop k nw)) in
    acc + lo * W
    <= reduceIndexed (fun sum def index =>
                        sum + g def * default 0 (nw !! index)) defs k acc
    <= acc + hi * W.
Proof.
  intros Hnw. induction defs as [|d t IH]; intros k acc Hall W; subst W.
  - unfold sumQ. cbn [length reduceIndexed]. rewrite take_0.
    cbn [fold_right]. lra.
  - apply Forall_cons in Hall as [Hd Ht].
    cbn [reduceIndexed length].
    specialize (IH (S k) (acc + g d * default 0 (nw !! k)) Ht).
    cbn zeta in IH.
    destruct (nw !! k) as [x|] eqn:E.
    + rewrite (drop_S _ _ _ E). cbn [firstn default] in *.
      assert (Hx : 0 <= x) by exact (proj1 (Forall_lookup _ _) Hnw k x E).
      unfold sumQ in *. cbn [fold_right].
      set (W := fold_right Qplus 0 (take (length t) (drop (S k) nw))) in *.
      assert (H1 : lo * x <= g d * x) by nra.
      assert (H2 : g d * x <= hi * x) by nra.
      unfold Datatypes.id in *. lra.
    + apply lookup_ge_None in E.
      rewrite drop_ge in * by lia. rewrite take_nil in *.
      cbn [default] in *. unfold sumQ in *.
      cbn [fold_right] in *. lra.
Qed.

Lemma table_rates (c : TaxResidenceCountry) :
  exists r,
    customRates (getTaxResidenceCountry c) = Some r /\
    countryId (getTaxResidenceCountry c) = c /\
    (0.21 <= ratesInterest r <= 0.28) /\
    (0.21 <= ratesDividends r <= 0.28) /\
    (0.21 <= ratesRealizedGains r <= 0.28).
Proof.
  destruct c; eexists; (split; [reflexivity|]);
    (split; [reflexivity|]); cbn; lra.
Qed.

Lemma selected_rates (unique : list TaxResidenceCountry) :
  Forall
    (fun d : TaxResidenceCountry * CustomRates =>
       (0.21 <= ratesInterest (snd d) <= 0.28) /\
       (0.21 <= ratesDividends (snd d) <= 0.28) /\
       (0.21 <= ratesRealizedGains (snd d) <= 0.28))
    (omap (fun d =>
             match customRates d with
             | Some r => Some (countryId d, r)
             | None => None
             end) (map getTaxResidenceCountry unique)).
Proof.
  induction unique as [|c t IH]; cbn [map omap list_omap]; [constructor|].
  destruct (table_rates c) as (r & -> & _ & H). constructor; [exact H|].
  exact IH.
Qed.

Lemma reliefMultiplier_bounds (relief : Q) (n : nat) :
  0 <= 1 - Qmax 0 (Qmin 1 relief) *
           Qmax 0 ((inject_Z (Z.of_nat n) - 1) /
                   Qmax 1 (inject_Z (Z.of_nat n))) <= 1.
Proof.
  set (c := Qmax 0 (Qmin 1 relief)).
  set (m := Qmax 1 (inject_Z (Z.of_nat n))).
  assert (Hc : 0 <= c <= 1).
  { subst c. split; [apply Q.le_max_l|].
    apply Q.max_lub; [lra|apply Q.le_min_l]. }
  assert (Hm : 1 <= m /\ inject_Z (Z.of_nat n) <= m).
  { subst m. split; [apply Q.le_max_l|apply Q.le_max_r]. }
  set (o := Qmax 0 ((inject_Z (Z.of_nat n) - 1) / m)).
  assert (Ho : 0 <= o <= 1).
  { subst o. split; [apply Q.le_max_l|].
    apply Q.max_lub; [lra|]. apply Qle_shift_div_r; lra. }
  split; nra.
Qed.

(** Whatever residences, weights and relief are asked for, the derived
    custom rates are rates the schema of the parameters accepts: each
    lies between 0 and 1. *)
Theorem derived_rates_are_valid
    (residences : list TaxResidenceCountry)
    (weights : option (TaxResidenceCountry -> option Q))
    (relief : option Q) :
  let s := deriveTaxSetupFromResidences residences weights relief in
  (0 <= setupInterest s <= 1) /\
  (0 <= setupDividends s <= 1) /\
  (0 <= setupRealizedGains s <= 1).
Proof.
  intros s. subst s. unfold deriveTaxSetupFromResidences.
  cbn [setupInterest setupDividends setupRealizedGains].
  set (unique := uniqueResidences residences).
  pose proof (selected_rates unique) as Hrates.
  set (selected := omap _ (map getTaxResidenceCountry unique)) in *.
  set (weightOf := fun d : TaxResidenceCountry * CustomRates =>
                     default 0 match weights with
                               | Some w => w (fst d)
                               | None => None
                               end).
  pose proof (normalizedWeights_length _ selected weightOf) as Hlen.
  pose proof (normalizedWeights_nonneg _ selected weightOf) as Hnn.
  pose proof (normalizedWeights_total _ selected weightOf) as Htot.
  cbn zeta in Hlen, Hnn, Htot. subst weightOf. cbn beta in Hlen, Hnn, Htot.
  set (nw := if gtq _ 0 then _ else _) in *.
  pose proof (reliefMultiplier_bounds (default 0.5 relief) (length unique))
    as Hm.
  set (mult := 1 - _ * _) in *.
  assert (Hw : forall g : CustomRates -> Q,
            Forall (fun d : TaxResidenceCountry * CustomRates =>
                      0.21 <= g (snd d) <= 0.28) selected ->
            0.21 <= match selected with
                    | [] => 0.25
                    | _ :: _ =>
                        reduceIndexed
                          (fun sum def index =>
                             sum + g (snd def) * default 0 (nw !! index))
                          selected 0 0
                    end <= 0.28).
  { intros g Hg. destruct selected as [|d t] eqn:Es; [lra|].
    rewrite <- Es in *.
    pose proof (reduceIndexed_bounds (fun d => g (snd d)) nw 0.21 0.28 Hnn
                  selected 0%nat 0 Hg) as Hb.
    cbn zeta in Hb. rewrite drop_0, <- Hlen, firstn_all in Hb.
    rewrite Htot in Hb by (rewrite Es; discriminate).
    lra. }
  pose proof (Hw ratesInterest) as H1.
  pose proof (Hw ratesDividends) as H2.
  pose proof (Hw ratesRealizedGains) as H3.
  assert (G1 : Forall (fun d : TaxResidenceCountry * CustomRates =>
                         0.21 <= ratesInterest (snd d) <= 0.28) selected)
    by (eapply Forall_impl; [exact Hrates|]; cbn; tauto).
  assert (G2 : Forall (fun d : TaxResidenceCountry * CustomRates =>
                         0.21 <= ratesDividends (snd d) <= 0.28) selected)
    by (eapply Forall_impl; [exact Hrates|]; cbn; tauto).
  assert (G3 : Forall (fun d : TaxResidenceCountry * CustomRates =>
                         0.21 <= ratesRealizedGains (snd d) <= 0.28) selected)
    by (eapply Forall_impl; [exact Hrates|]; cbn; tauto).
  specialize (H1 G1). specialize (H2 G2). specialize (H3 G3).
  repeat split; nra.
Qed.

(** A single residence gives that country's own rates, whatever weight
    and double-tax relief are passed: there is nothing to blend and
    nothing to relieve. *)
Theorem single_residence_keeps_its_rates
    (c : TaxResidenceCountry)
    (weights : option (TaxResidenceCountry -> option Q))
    (relief : option Q) :
  let s := deriveTaxSetupFromResidences [c] weights relief in
  exists r,
    customRates (getTaxResidenceCountry c) = Some r /\
    setupInterest s == ratesInterest r /\
    setupDividends s == ratesDividends r /\
    setupRealizedGains s == ratesRealizedGains r.
Proof.
  intros s. subst s.
  destruct (table_rates c) as (r & Hr & Hid & _).
  exists r. split; [exact Hr|].
  unfold deriveTaxSetupFromResidences.
  cbn [setupInterest setupDividends setupRealizedGains].
  change (uniqueResidences [c]) with [c].
  cbn [map omap list_omap length]. rewrite Hr, Hid.
  cbn [map fold_left fst snd length].
  set (w := Qmax 0 _).
  assert (Ho : Qmax 0 ((inject_Z (Z.of_nat 1) - 1) /
                       Qmax 1 (inject_Z (Z.of_nat 1))) == 0) by reflexivity.
  set (o := Qmax 0 ((inject_Z (Z.of_nat 1) - 1) / _)) in *.
  set (k := Qmax 0 (Qmin 1 (default 0.5 relief))).
  assert (Hn : default 0
                 ((if gtq (0 + w) 0 then [w / (0 + w)]
                   else [1 / Qmax 1 (inject_Z (Z.of_nat 1))]) !! 0%nat)
               == 1).
  { destruct (gtq (0 + w) 0) eqn:E.
    - apply gtq_true in E. change (w / (0 + w) == 1). field. lra.
    - reflexivity. }
  cbn [reduceIndexed].
  set (n := default 0 _) in *.
  repeat split; rewrite Hn, Ho; cbn [snd]; ring.
Qed.
